(** * Clauder: a shallow embedding of the Go sources and their properties

    The development follows the layout of the repository:

    - [Coordinator]    lib/coordinator/client.go (coordinator URL, Register, Lookup)
    - [HttpApi]        lib/httpapi (the bearer-token middleware, GET /status)
    - [Quickstart]     cmd/quickstart/quickstart.go (start-up and shutdown order)
    - [Session]        cmd/quickstart/session.go (passcode generation) and the
                       passcode validation of the coordinator worker
    - [ScreenTracker]  the stability detector of the terminal session core
    - [Segmenter]      the message segmenter of the terminal session core
    - [Worker]         the coordinator worker (register, lookup, health)
    - [SessionToken]   cmd/quickstart/session.go (token and session)
    - [Tunnel]         lib/tunnel (providers, output parsing, Connect)
    - [QuickstartShutdown], [MiddlewareLaws], [CoordinatorClient]
                       further properties of quickstart.go, the middleware
                       and client.go

    Strings are Go strings (sequences of bytes), maps are finite maps,
    a panic or an error return is an [option] or an explicit error value. *)

From Stdlib Require Import String Ascii List ZArith Lia Bool.
From stdpp Require Import gmap strings list pretty.

Open Scope string_scope.

(* stdpp freezes string concatenation; the proofs below compute with it. *)
#[local] Arguments String.append !_ _ / : simpl nomatch.

(** ** Go string helpers shared by the modules *)

(** [s[n:]] for [n <= len(s)]; Go panics beyond the length, which the
    callers below exclude by testing a prefix first. *)
Fixpoint slice_from (n : nat) (s : string) : string :=
  match n, s with
  | 0, _ => s
  | S n', String _ s' => slice_from n' s'
  | S _, EmptyString => EmptyString
  end.

(** [strings.HasPrefix(s, p)] *)
Definition HasPrefix (s p : string) : bool := String.prefix p s.

(** ** The agent status shared by the tracker and the HTTP surface *)

Inductive AgentStatus := initializing | stable | changing | terminated.

#[global] Instance AgentStatus_eq_dec : EqDecision AgentStatus.
Proof. solve_decision. Defined.

Lemma HasPrefix_app (p t : string) : HasPrefix (p +:+ t) p = true.
Proof.
  unfold HasPrefix. induction p as [|c p IH]; simpl.
  - now destruct t.
  - destruct (ascii_dec c c) as [_|Hne]; [exact IH | now elim Hne].
Qed.

Lemma HasPrefix_split (p s : string) :
  HasPrefix s p = true -> s = p +:+ slice_from (String.length p) s.
Proof.
  unfold HasPrefix. revert s. induction p as [|c p IH]; intros s H; simpl.
  - reflexivity.
  - destruct s as [|d s]; simpl in H; [discriminate|].
    destruct (ascii_dec c d) as [->|]; [|discriminate].
    simpl. f_equal. now apply IH.
Qed.

Lemma slice_from_app (p t : string) : slice_from (String.length p) (p +:+ t) = t.
Proof. induction p as [|c p IH]; simpl; [now destruct t | exact IH]. Qed.

(** * lib/coordinator/client.go *)
Module Coordinator.

(** The process environment: variable name to value. *)
Abbreviation Environ := (gmap string string).

(** [os.Getenv]: the value, or the empty string when the variable is unset. *)
Definition Getenv (env : Environ) (key : string) : string :=
  default "" (env !! key).

Definition DefaultCoordinatorURL : string := "https://coordinator.claudecode.app".

Definition getCoordinatorURL (env : Environ) : string :=
  let url := Getenv env "COORDINATOR_URL" in
  if negb (url =? "") then url else DefaultCoordinatorURL.

(** The request line that [Register] and [Lookup] build. *)
Record Target := { t_method : string; t_url : string }.

(** [fmt.Sprintf("%s/register", getCoordinatorURL())] posted by [Register]. *)
Definition Register_target (env : Environ) : Target :=
  {| t_method := "POST"; t_url := getCoordinatorURL env +:+ "/register" |}.

(** [fmt.Sprintf("%s/lookup/%s", getCoordinatorURL(), passcode)] fetched by [Lookup]. *)
Definition Lookup_target (env : Environ) (passcode : string) : Target :=
  {| t_method := "GET"; t_url := getCoordinatorURL env +:+ "/lookup/" +:+ passcode |}.

(** net/http: [Register] and [Lookup] send through [&http.Client{Timeout}],
    a client without a transport of its own, and so through
    [http.DefaultTransport], whose [Proxy] is [http.ProxyFromEnvironment].
    That function reads its settings from the environment
    ([httpproxy.FromEnvironment]), the upper-case name before the lower-case
    one. *)
Fixpoint getEnvAny (env : Environ) (names : list string) : string :=
  match names with
  | [] => ""
  | name :: rest =>
      if negb (Getenv env name =? "") then Getenv env name else getEnvAny env rest
  end.

Record ProxyConfig := {
  HTTPProxy : string;
  HTTPSProxy : string;
  NoProxy : string;
  CGI : bool
}.

Definition FromEnvironment (env : Environ) : ProxyConfig :=
  {| HTTPProxy := getEnvAny env ["HTTP_PROXY"; "http_proxy"];
     HTTPSProxy := getEnvAny env ["HTTPS_PROXY"; "https_proxy"];
     NoProxy := getEnvAny env ["NO_PROXY"; "no_proxy"];
     CGI := negb (Getenv env "REQUEST_METHOD" =? "") |}.

(** How the transport reaches the server: directly, through a proxy, or not
    at all (the proxy setting is refused). *)
Inductive Route := Direct | Via (proxy : string) | Refused.

(** What the client puts on the wire: the request line and its route. *)
Record Sent := { request_line : Target; route : Route }.

(** The claim's wording: the value of COORDINATOR_URL when it is set to a
    non-empty string, the default URL otherwise. *)
Definition stated_url (env : Environ) : string :=
  match env !! "COORDINATOR_URL" with
  | Some v => if decide (v = "") then "https://coordinator.claudecode.app" else v
  | None => "https://coordinator.claudecode.app"
  end.

(** A stand-in for the choice of the proxy in [httpproxy]: the setting of
    the scheme of the URL, HTTP_PROXY being refused under CGI. It agrees
    with the library for a well-formed proxy URL, no NO_PROXY setting and a
    server that is not the local host. *)
Definition scheme_proxy (cfg : ProxyConfig) (url : string) : Route :=
  if HasPrefix url "https://" then
    if HTTPSProxy cfg =? "" then Direct else Via (HTTPSProxy cfg)
  else if HasPrefix url "http://" then
    if HTTPProxy cfg =? "" then Direct
    else if CGI cfg then Refused else Via (HTTPProxy cfg)
  else Direct.

Section DefaultTransport.

(** [httpproxy]: the proxy for a URL under given settings (the parsing of
    the proxy URL and the matching of the host against NO_PROXY are the
    library's). *)
Variable proxyForURL : ProxyConfig -> string -> Route.

Definition ProxyFromEnvironment (env : Environ) (url : string) : Route :=
  proxyForURL (FromEnvironment env) url.

(** [client.Do(req)] in [Register], [client.Get(url)] in [Lookup]. *)
Definition Register_sends (env : Environ) : Sent :=
  {| request_line := Register_target env;
     route := ProxyFromEnvironment env (t_url (Register_target env)) |}.

Definition Lookup_sends (env : Environ) (passcode : string) : Sent :=
  {| request_line := Lookup_target env passcode;
     route := ProxyFromEnvironment env (t_url (Lookup_target env passcode)) |}.

(** The claim's wording: the URL is the stated one, and no environment
    variable other than COORDINATOR_URL affects the coordinator client. *)
Definition stated_rule (passcode : string) : Prop :=
  (forall env, getCoordinatorURL env = stated_url env) /\
  (forall env env' : Environ,
      env' !! "COORDINATOR_URL" = env !! "COORDINATOR_URL" ->
      Register_sends env' = Register_sends env /\
      Lookup_sends env' passcode = Lookup_sends env passcode).

Lemma getCoordinatorURL_stated (env : Environ) :
  getCoordinatorURL env = stated_url env.
Proof.
  unfold getCoordinatorURL, stated_url, Getenv.
  destruct (env !! "COORDINATOR_URL") as [v|]; simpl; [|reflexivity].
  destruct (decide (v = "")) as [->|Hne]; [reflexivity|].
  destruct (String.eqb_spec v ""); [contradiction | reflexivity].
Qed.

Lemma getCoordinatorURL_only_reads (env env' : Environ) :
  env' !! "COORDINATOR_URL" = env !! "COORDINATOR_URL" ->
  getCoordinatorURL env' = getCoordinatorURL env.
Proof. intros H. unfold getCoordinatorURL, Getenv. now rewrite H. Qed.

(** C9: the URL used by Register and Lookup is the value of COORDINATOR_URL
    when that variable is set to a non-empty string and the default
    "https://coordinator.claudecode.app" otherwise; two environments that
    agree on COORDINATOR_URL give the same method and URL of the Register and
    Lookup requests, whatever their other variables are; and if they agree
    also on the proxy settings that net/http reads (HTTP_PROXY, HTTPS_PROXY,
    NO_PROXY, their lower-case forms, and REQUEST_METHOD), the requests take
    the same route as well. *)
Theorem coordinator_url_from_env (env : Environ) (passcode : string) :
  getCoordinatorURL env = stated_url env /\
  t_url (Register_target env) = stated_url env +:+ "/register" /\
  t_url (Lookup_target env passcode) = stated_url env +:+ "/lookup/" +:+ passcode /\
  (forall env' : Environ,
      env' !! "COORDINATOR_URL" = env !! "COORDINATOR_URL" ->
      (Register_target env' = Register_target env /\
       Lookup_target env' passcode = Lookup_target env passcode) /\
      (FromEnvironment env' = FromEnvironment env ->
       Register_sends env' = Register_sends env /\
       Lookup_sends env' passcode = Lookup_sends env passcode)).
Proof.
  split; [apply getCoordinatorURL_stated|].
  split; [simpl; now rewrite getCoordinatorURL_stated|].
  split; [simpl; now rewrite getCoordinatorURL_stated|].
  intros env' Hurl.
  assert (Hreg : Register_target env' = Register_target env).
  { unfold Register_target. now rewrite (getCoordinatorURL_only_reads env env'). }
  assert (Hlook : Lookup_target env' passcode = Lookup_target env passcode).
  { unfold Lookup_target. now rewrite (getCoordinatorURL_only_reads env env'). }
  split; [now split|]. intros Hproxy.
  unfold Register_sends, Lookup_sends, ProxyFromEnvironment.
  now rewrite Hreg, Hlook, Hproxy.
Qed.

End DefaultTransport.

(** C9, counterexample: with COORDINATOR_URL unset in both, an environment
    that sets HTTPS_PROXY sends the registration through that proxy and the
    empty environment sends it directly: a variable other than
    COORDINATOR_URL affects the client. *)
Lemma no_other_variable_fails : ~ stated_rule scheme_proxy "ABC234".
Proof.
  intros [_ H].
  specialize (H (∅ : Environ) (<["HTTPS_PROXY" := "http://127.0.0.1:3128"]> ∅)).
  destruct H as [Hreg _]; [vm_compute; reflexivity|].
  vm_compute in Hreg. discriminate.
Qed.

(** The theorem at an environment that sets COORDINATOR_URL together with
    an unrelated variable, compared with one that sets only the former. *)
Lemma coordinator_url_from_env_witness :
  getCoordinatorURL (<["PORT" := "9000"]> (<["COORDINATOR_URL" := "https://c.example"]> ∅))
    = "https://c.example" /\
  Register_sends scheme_proxy (<["COORDINATOR_URL" := "https://c.example"]> ∅)
    = Register_sends scheme_proxy
        (<["PORT" := "9000"]> (<["COORDINATOR_URL" := "https://c.example"]> ∅)).
Proof.
  pose proof (coordinator_url_from_env scheme_proxy
                (<["PORT" := "9000"]> (<["COORDINATOR_URL" := "https://c.example"]> ∅))
                "ABC234") as (Hurl & _ & _ & Hsame).
  split.
  - rewrite Hurl. vm_compute. reflexivity.
  - apply (Hsame (<["COORDINATOR_URL" := "https://c.example"]> ∅));
      vm_compute; reflexivity.
Defined.

End Coordinator.

(** * lib/httpapi: the bearer-token middleware *)
Module HttpApi.

(** A double quote and a line feed, for JSON texts and [http.Error] bodies. *)
Definition dq : string := String (ascii_of_nat 34) EmptyString.
Definition lf : string := String (ascii_of_nat 10) EmptyString.

(** How a request body stream ends once its bytes are delivered: a clean
    end of file, or a read error (a dropped connection, a short body). *)
Inductive StreamEnd := EOF | ReadError.

(** An [io.ReadCloser]: the bytes still to be read and the end after them. *)
Record ReadCloser := { pending : string; closing : StreamEnd }.

(** [io.ReadAll]: the bytes read, whether an error ended the read, and the
    reader afterwards, which has nothing left to deliver. *)
Definition ReadAll (b : ReadCloser) : string * bool * ReadCloser :=
  (pending b,
   match closing b with EOF => false | ReadError => true end,
   {| pending := ""; closing := closing b |}).

(** [io.NopCloser(bytes.NewBuffer(body))] *)
Definition NewBuffer (body : string) : ReadCloser :=
  {| pending := body; closing := EOF |}.

(** [http.Header] as read by [Get]: canonical name to value. *)
Abbreviation Header := (gmap string string).

(** [Header.Get]: the value, or the empty string when the header is absent. *)
Definition Get (h : Header) (key : string) : string := default "" (h !! key).

Record Request := {
  Method : string;
  Path : string;            (* r.URL.Path *)
  Headers : Header;         (* r.Header *)
  Body : ReadCloser         (* r.Body *)
}.

Definition with_Body (r : Request) (b : ReadCloser) : Request :=
  {| Method := Method r; Path := Path r; Headers := Headers r; Body := b |}.

(** The state of an [http.ResponseWriter]: status 0 until a status is written. *)
Record ResponseWriter := {
  status : nat;
  out_headers : Header;
  out_body : string
}.

Definition fresh_writer : ResponseWriter :=
  {| status := 0; out_headers := ∅; out_body := "" |}.

Definition StatusUnauthorized : nat := 401.
Definition StatusOK : nat := 200.

(** [w.Header().Set(key, value)] *)
Definition Header_Set (w : ResponseWriter) (key value : string) : ResponseWriter :=
  {| status := status w; out_headers := <[key := value]> (out_headers w);
     out_body := out_body w |}.

(** [http.Error(w, msg, code)]: plain-text headers, the status, the message
    and a line feed. *)
Definition http_Error (w : ResponseWriter) (msg : string) (code : nat) : ResponseWriter :=
  {| status := code;
     out_headers := <["X-Content-Type-Options" := "nosniff"]>
                      (<["Content-Type" := "text/plain; charset=utf-8"]> (out_headers w));
     out_body := out_body w +:+ msg +:+ lf |}.

(** An [http.Handler]: the writer after [ServeHTTP(w, r)]. *)
Definition Handler := ResponseWriter -> Request -> ResponseWriter.

(** What one run of the middleware does: it calls [next.ServeHTTP(w, r)]
    and returns, or it returns with the writer it has filled in and
    without calling [next]. *)
Inductive Outcome :=
| ServeNext (w : ResponseWriter) (r : Request)
| Return (w : ResponseWriter).

Definition serve (next : Handler) (o : Outcome) : ResponseWriter :=
  match o with
  | ServeNext w r => next w r
  | Return w => w
  end.

(** The requests on which the inner handler is invoked. *)
Definition invocations (o : Outcome) : list Request :=
  match o with
  | ServeNext _ r => [r]
  | Return _ => []
  end.

(** The anonymous struct of [isRawMessage]:
    [struct { Type string `json:"type"` }]. *)
Record RawProbe := { msg_Type : string }.

(** *** The GET /status handler *)

Definition status_name (s : AgentStatus) : string :=
  match s with
  | initializing => "initializing"
  | stable => "stable"
  | changing => "changing"
  | terminated => "terminated"
  end.

(** The object [{"status": <name>}] as text. *)
Definition status_json (s : AgentStatus) : string :=
  "{" +:+ dq +:+ "status" +:+ dq +:+ ":" +:+ dq +:+ status_name s +:+ dq +:+ "}".

(** Modelled from the spec: the GET /status handler of lib/httpapi/server.go
    is not among the sources. It "returns the current status as a small JSON
    object" and "never fails": status 200 and the object above. *)
Definition getStatus (current : AgentStatus) : Handler :=
  fun w _ =>
    {| status := StatusOK;
       out_headers := <["Content-Type" := "application/json"]> (out_headers w);
       out_body := out_body w +:+ status_json current |}.

(** *** Concrete requests *)

Definition raw_message_json : string :=
  "{" +:+ dq +:+ "content" +:+ dq +:+ ":" +:+ dq +:+ "ls" +:+ dq +:+ ","
      +:+ dq +:+ "type" +:+ dq +:+ ":" +:+ dq +:+ "raw" +:+ dq +:+ "}".

Definition user_message_json : string :=
  "{" +:+ dq +:+ "content" +:+ dq +:+ ":" +:+ dq +:+ "hi" +:+ dq +:+ ","
      +:+ dq +:+ "type" +:+ dq +:+ ":" +:+ dq +:+ "user" +:+ dq +:+ "}".

(** A decoder that knows the two message bodies above and rejects every
    other text; it stands for encoding/json when the middleware is run on
    the requests below. *)
Definition two_body_Unmarshal (body : string) : option RawProbe :=
  if body =? raw_message_json then Some {| msg_Type := "raw" |}
  else if body =? user_message_json then Some {| msg_Type := "user" |}
  else None.

(** GET /internal/metrics, no Authorization header. *)
Definition internal_request : Request :=
  {| Method := "GET"; Path := "/internal/metrics"; Headers := ∅;
     Body := NewBuffer "" |}.

(** The same request with a wrong token. *)
Definition internal_request_bad_token : Request :=
  {| Method := "GET"; Path := "/internal/metrics";
     Headers := <["Authorization" := "Bearer wrong"]> ∅;
     Body := NewBuffer "" |}.

(** GET /status, no Authorization header. *)
Definition status_request_anonymous : Request :=
  {| Method := "GET"; Path := "/status"; Headers := ∅; Body := NewBuffer "" |}.

(** GET /status with the token "secret". *)
Definition status_request_authorized : Request :=
  {| Method := "GET"; Path := "/status";
     Headers := <["Authorization" := "Bearer secret"]> ∅;
     Body := NewBuffer "" |}.

(** POST /message with a user message and the token "secret". *)
Definition user_post : Request :=
  {| Method := "POST"; Path := "/message";
     Headers := <["Authorization" := "Bearer secret"]> ∅;
     Body := NewBuffer user_message_json |}.

(** POST /message with the token "secret" whose connection breaks after the
    bytes of a raw message have arrived. *)
Definition broken_post : Request :=
  {| Method := "POST"; Path := "/message";
     Headers := <["Authorization" := "Bearer secret"]> ∅;
     Body := {| pending := raw_message_json; closing := ReadError |} |}.

Section Middleware.

(** [json.Unmarshal(body, &msg)] of encoding/json for the struct above:
    the decoded struct, or [None] when it returns an error. *)
Variable json_Unmarshal : string -> option RawProbe.

(** The result and the request as the function leaves it: [r.Body] is
    assigned in place after a successful read; after a failed read the
    function returns at once and [r.Body] stays the reader that [ReadAll]
    has drained. *)
Definition isRawMessage (r : Request) : bool * Request :=
  let '(body, err, drained) := ReadAll (Body r) in
  if err then (false, with_Body r drained)
  else
    let r := with_Body r (NewBuffer body) in
    match json_Unmarshal body with
    | None => (false, r)
    | Some msg => (msg_Type msg =? "raw", r)
    end.

Definition AuthMiddleware (token : string) (w : ResponseWriter) (r : Request) : Outcome :=
  if (Path r =? "/health") || HasPrefix (Path r) "/internal/" then ServeNext w r
  else
    let '(raw, r) :=
      if (Path r =? "/message") && (Method r =? "POST") then isRawMessage r
      else (false, r) in
    if raw then ServeNext w r
    else
      let auth := Get (Headers r) "Authorization" in
      if auth =? "" then
        Return (http_Error (Header_Set w "WWW-Authenticate" "Bearer")
                           "Authorization required" StatusUnauthorized)
      else
        let prefix := "Bearer " in
        if negb (HasPrefix auth prefix) then
          Return (http_Error w "Invalid authorization format" StatusUnauthorized)
        else
          let providedToken := slice_from (String.length prefix) auth in
          if negb (providedToken =? token) then
            Return (http_Error w "Invalid token" StatusUnauthorized)
          else ServeNext w r.

(** *** Vocabulary of the claims *)

Definition forwarded (o : Outcome) : bool :=
  match o with ServeNext _ _ => true | Return _ => false end.

Definition answered_401 (o : Outcome) : bool :=
  match o with
  | Return w => Nat.eqb (status w) 401
  | ServeNext _ _ => false
  end.

(** The body arrives whole and decodes to a message of type raw. *)
Definition json_type_raw (b : ReadCloser) : bool :=
  match closing b with
  | ReadError => false
  | EOF => match json_Unmarshal (pending b) with
           | Some msg => msg_Type msg =? "raw"
           | None => false
           end
  end.

Definition raw_post (r : Request) : bool :=
  (Path r =? "/message") && (Method r =? "POST") && json_type_raw (Body r).

(** The exemptions as the interface description lists them ... *)
Definition exempt_listed (r : Request) : bool :=
  (Path r =? "/health") || raw_post r.

(** ... and as the middleware grants them. *)
Definition exempt (r : Request) : bool :=
  (Path r =? "/health") || HasPrefix (Path r) "/internal/" || raw_post r.

Definition bearer (token : string) : string := "Bearer " +:+ token.

(** The request as the middleware holds it once the probe has run (or has
    been skipped). *)
Definition probed (r : Request) : Request :=
  if (Path r =? "/message") && (Method r =? "POST") then snd (isRawMessage r) else r.

(** The last part of the middleware, reached when no exemption applies. *)
Definition token_gate (token : string) (w : ResponseWriter) (r : Request) : Outcome :=
  let auth := Get (Headers r) "Authorization" in
  if auth =? "" then
    Return (http_Error (Header_Set w "WWW-Authenticate" "Bearer")
                       "Authorization required" StatusUnauthorized)
  else if negb (HasPrefix auth "Bearer ") then
    Return (http_Error w "Invalid authorization format" StatusUnauthorized)
  else if negb (slice_from (String.length "Bearer ") auth =? token) then
    Return (http_Error w "Invalid token" StatusUnauthorized)
  else ServeNext w r.

(** The authentication rule as the interface description words it: only
    /health and a raw POST /message are exempt. *)
Definition listed_exemptions_rule (token : string) (w : ResponseWriter) (r : Request) : Prop :=
  (exempt_listed r = true -> forwarded (AuthMiddleware token w r) = true) /\
  (exempt_listed r = false ->
   (forwarded (AuthMiddleware token w r) = true <->
    Get (Headers r) "Authorization" = bearer token) /\
   (Get (Headers r) "Authorization" <> bearer token ->
    answered_401 (AuthMiddleware token w r) = true /\
    invocations (AuthMiddleware token w r) = [])).

(** The body decodes to a message whose type is raw. *)
Definition decodes_raw (data : string) : Prop :=
  exists msg, json_Unmarshal data = Some msg /\ msg_Type msg = "raw".

(** The probe as claimed: it classifies, and the handler downstream always
    finds the original body. *)
Definition probe_rule (token : string) (w : ResponseWriter) (r : Request) : Prop :=
  Path r = "/message" -> Method r = "POST" ->
  (fst (isRawMessage r) = true <->
   closing (Body r) = EOF /\ decodes_raw (pending (Body r))) /\
  (forall w' r', AuthMiddleware token w r = ServeNext w' r' -> Body r' = Body r).

(** Modelled from the spec: the server built by [NewServerWithAuth] (called in
    quickstart.go, defined in the absent server.go) serves every route behind
    [AuthMiddleware token]; the interface table lists bearer authentication
    for GET /status. *)
Definition statusEndpoint (token : string) (current : AgentStatus) (r : Request)
  : ResponseWriter :=
  serve (getStatus current) (AuthMiddleware token fresh_writer r).

(** GET /status as claimed: always the status object, never an error. *)
Definition status_never_fails (token : string) (current : AgentStatus) (r : Request)
  : Prop :=
  Method r = "GET" -> Path r = "/status" ->
  status (statusEndpoint token current r) = StatusOK /\
  out_body (statusEndpoint token current r) = status_json current.

(** *** The raw-type probe *)

Lemma isRawMessage_result (r : Request) :
  fst (isRawMessage r) = json_type_raw (Body r).
Proof.
  unfold isRawMessage, json_type_raw, ReadAll.
  destruct (closing (Body r)); simpl; [|reflexivity].
  now destruct (json_Unmarshal (pending (Body r))).
Qed.

Lemma isRawMessage_frame (r : Request) :
  Method (snd (isRawMessage r)) = Method r /\
  Path (snd (isRawMessage r)) = Path r /\
  Headers (snd (isRawMessage r)) = Headers r.
Proof.
  unfold isRawMessage, ReadAll.
  destruct (closing (Body r)); simpl; [|auto].
  destruct (json_Unmarshal (pending (Body r))); simpl; auto.
Qed.

Lemma isRawMessage_restores (r : Request) :
  closing (Body r) = EOF -> snd (isRawMessage r) = r.
Proof.
  intros Heof. unfold isRawMessage, ReadAll. rewrite Heof.
  destruct r as [m p h [data e]]; simpl in *; subst e.
  now destruct (json_Unmarshal data).
Qed.

Lemma isRawMessage_drains (r : Request) :
  closing (Body r) = ReadError ->
  isRawMessage r = (false, with_Body r {| pending := ""; closing := ReadError |}).
Proof. intros Herr. unfold isRawMessage, ReadAll. now rewrite Herr. Qed.

Lemma probed_frame (r : Request) :
  Method (probed r) = Method r /\ Path (probed r) = Path r /\
  Headers (probed r) = Headers r.
Proof.
  unfold probed. destruct ((Path r =? "/message") && (Method r =? "POST")); auto.
  apply isRawMessage_frame.
Qed.

Lemma probed_whole_body (r : Request) : closing (Body r) = EOF -> probed r = r.
Proof.
  intros H. unfold probed.
  destruct ((Path r =? "/message") && (Method r =? "POST")); auto.
  now apply isRawMessage_restores.
Qed.

(** *** The token comparison *)

Lemma bearer_check (auth token : string) :
  (auth =? "") = false /\ HasPrefix auth "Bearer " = true /\
  (slice_from (String.length "Bearer ") auth =? token) = true
  <-> auth = bearer token.
Proof.
  unfold bearer. split.
  - intros (_ & Hp & Ht). apply String.eqb_eq in Ht.
    rewrite (HasPrefix_split _ _ Hp). now rewrite Ht.
  - intros ->. split; [reflexivity | split].
    + apply HasPrefix_app.
    + rewrite slice_from_app. apply String.eqb_refl.
Qed.

Lemma token_gate_pass (token : string) (w : ResponseWriter) (r : Request) :
  Get (Headers r) "Authorization" = bearer token ->
  token_gate token w r = ServeNext w r.
Proof.
  intros H. apply bearer_check in H as (H1 & H2 & H3).
  unfold token_gate. now rewrite H1, H2, H3.
Qed.

Lemma token_gate_deny (token : string) (w : ResponseWriter) (r : Request) :
  Get (Headers r) "Authorization" <> bearer token ->
  exists w', token_gate token w r = Return w' /\ status w' = 401.
Proof.
  intros H. unfold token_gate. cbv zeta.
  set (auth := Get (Headers r) "Authorization") in *.
  destruct (auth =? "") eqn:H1; [eexists; split; reflexivity|].
  destruct (HasPrefix auth "Bearer ") eqn:H2;
    cbn [negb]; [|eexists; split; reflexivity].
  destruct (slice_from (String.length "Bearer ") auth =? token) eqn:H3;
    cbn [negb]; [|eexists; split; reflexivity].
  elim H. apply bearer_check. auto.
Qed.

Lemma internal_not_message (p : string) :
  HasPrefix p "/internal/" = true -> (p =? "/message") = false.
Proof.
  intros H. destruct (String.eqb_spec p "/message") as [->|]; [|reflexivity].
  vm_compute in H. discriminate.
Qed.

(** The middleware, by cases on the exemption. *)
Lemma AuthMiddleware_cases (token : string) (w : ResponseWriter) (r : Request) :
  AuthMiddleware token w r =
  if exempt r then ServeNext w (probed r)
  else token_gate token w (probed r).
Proof.
  unfold AuthMiddleware, exempt, raw_post, probed.
  destruct (Path r =? "/health") eqn:Hh.
  { apply String.eqb_eq in Hh. rewrite Hh. reflexivity. }
  destruct (HasPrefix (Path r) "/internal/") eqn:Hi.
  { simpl. now rewrite (internal_not_message _ Hi). }
  simpl.
  destruct ((Path r =? "/message") && (Method r =? "POST")); simpl; [|reflexivity].
  rewrite <- isRawMessage_result.
  destruct (isRawMessage r) as [raw r']. simpl.
  now destruct raw.
Qed.

(** *** Claims about the middleware *)

(** The request handed to the inner handler, when there is one. *)
Lemma AuthMiddleware_passes_probed (token : string) (w w' : ResponseWriter) (r r' : Request) :
  AuthMiddleware token w r = ServeNext w' r' -> w' = w /\ r' = probed r.
Proof.
  rewrite AuthMiddleware_cases. destruct (exempt r).
  - intros [= <- <-]. auto.
  - unfold token_gate. cbv zeta.
    repeat match goal with |- context [if ?c then _ else _] => destruct c end;
      intros [= <- <-] || discriminate; auto.
Qed.

(** C1 (amended): a request whose path is /health or begins with /internal/,
    or that is a POST to /message whose body arrives whole and decodes to
    type raw, is forwarded to the inner handler whatever its Authorization
    header; every other request is forwarded if and only if its
    Authorization header equals "Bearer " followed by the configured token,
    and is otherwise answered 401 without the inner handler being invoked. *)
Theorem auth_gate (token : string) (w : ResponseWriter) (r : Request) :
  (exempt r = true ->
   AuthMiddleware token w r = ServeNext w (probed r)) /\
  (exempt r = false ->
   (forwarded (AuthMiddleware token w r) = true <->
    Get (Headers r) "Authorization" = bearer token) /\
   (Get (Headers r) "Authorization" <> bearer token ->
    answered_401 (AuthMiddleware token w r) = true /\
    invocations (AuthMiddleware token w r) = [])).
Proof.
  rewrite AuthMiddleware_cases.
  destruct (probed_frame r) as (_ & _ & Hh).
  split; intros He; rewrite He; [reflexivity|].
  assert (Hdeny : Get (Headers r) "Authorization" <> bearer token ->
                  exists w', token_gate token w (probed r) = Return w' /\ status w' = 401).
  { intros Hne. apply token_gate_deny. now rewrite Hh. }
  split; [split|].
  - intros Hf.
    destruct (decide (Get (Headers r) "Authorization" = bearer token)) as [|Hne]; [assumption|].
    destruct (Hdeny Hne) as (w' & Hw & _). rewrite Hw in Hf. discriminate.
  - intros Hb. rewrite token_gate_pass; [reflexivity | now rewrite Hh].
  - intros Hne. destruct (Hdeny Hne) as (w' & -> & Hs). simpl. rewrite Hs. auto.
Qed.

(** C4: two requests under /internal/ that differ only in their
    Authorization header are both handed to the inner handler, unchanged and
    with the writer untouched: no token is compared on such a path. *)
Theorem internal_paths_skip_auth (token : string) (w : ResponseWriter) (r1 r2 : Request) :
  HasPrefix (Path r1) "/internal/" = true ->
  Method r2 = Method r1 -> Path r2 = Path r1 -> Body r2 = Body r1 ->
  (forall k : string, k <> "Authorization" -> Headers r2 !! k = Headers r1 !! k) ->
  AuthMiddleware token w r1 = ServeNext w r1 /\
  AuthMiddleware token w r2 = ServeNext w r2.
Proof.
  intros Hp _ Hpath _ _. unfold AuthMiddleware. rewrite Hpath, Hp.
  now rewrite orb_true_r.
Qed.

Lemma json_type_raw_decodes (b : ReadCloser) :
  json_type_raw b = true <-> closing b = EOF /\ decodes_raw (pending b).
Proof.
  unfold json_type_raw, decodes_raw. destruct (closing b).
  - destruct (json_Unmarshal (pending b)) as [m|].
    + rewrite String.eqb_eq. split.
      * intros H. split; [reflexivity|]. now exists m.
      * intros (_ & m' & [= <-] & H). exact H.
    + split; [discriminate|]. now intros (_ & m' & [=] & _).
  - split; [discriminate|]. now intros ([=] & _).
Qed.

(** C8 (amended): on a POST to /message the probe answers raw exactly when
    the body is read to its end without error and decodes to a message of
    type raw (a read error and a decoding error both answer non-raw); and
    when the body is read without error, the request handed to the inner
    handler is the original request, body included. *)
Theorem raw_probe_frame (token : string) (w : ResponseWriter) (r : Request) :
  Path r = "/message" -> Method r = "POST" ->
  (fst (isRawMessage r) = true <->
   closing (Body r) = EOF /\ decodes_raw (pending (Body r))) /\
  (closing (Body r) = EOF ->
   snd (isRawMessage r) = r /\
   forall w' r', AuthMiddleware token w r = ServeNext w' r' -> w' = w /\ r' = r).
Proof.
  intros _ _. split.
  - rewrite isRawMessage_result. apply json_type_raw_decodes.
  - intros Heof. split; [now apply isRawMessage_restores|].
    intros w' r' H. apply AuthMiddleware_passes_probed in H as [-> ->].
    split; [reflexivity | now apply probed_whole_body].
Qed.

End Middleware.

Example raw_post_is_forwarded :
  AuthMiddleware two_body_Unmarshal "secret" fresh_writer
    {| Method := "POST"; Path := "/message"; Headers := ∅;
       Body := NewBuffer raw_message_json |}
  = ServeNext fresh_writer
      {| Method := "POST"; Path := "/message"; Headers := ∅;
         Body := NewBuffer raw_message_json |}.
Proof. vm_compute. reflexivity. Qed.

Example user_post_without_token_is_refused :
  answered_401 (AuthMiddleware two_body_Unmarshal "secret" fresh_writer
    {| Method := "POST"; Path := "/message"; Headers := ∅;
       Body := NewBuffer user_message_json |}) = true.
Proof. vm_compute. reflexivity. Qed.

(** C1, counterexample: GET /internal/metrics without Authorization header is
    not among the listed exemptions and carries no token, yet it is forwarded. *)
Lemma listed_exemptions_rule_fails :
  ~ listed_exemptions_rule two_body_Unmarshal "secret" fresh_writer internal_request.
Proof.
  intros [_ H]. destruct (H eq_refl) as [[Hfwd _] _].
  specialize (Hfwd eq_refl). vm_compute in Hfwd. discriminate.
Qed.

Lemma auth_gate_witness :
  exempt two_body_Unmarshal user_post = false /\
  forwarded (AuthMiddleware two_body_Unmarshal "secret" fresh_writer user_post) = true /\
  exempt two_body_Unmarshal internal_request = true /\
  AuthMiddleware two_body_Unmarshal "secret" fresh_writer internal_request
  = ServeNext fresh_writer internal_request.
Proof.
  destruct (auth_gate two_body_Unmarshal "secret" fresh_writer user_post) as [_ Hg].
  destruct (auth_gate two_body_Unmarshal "secret" fresh_writer internal_request) as [He _].
  split; [reflexivity|]. split.
  - apply (proj1 (Hg eq_refl)). vm_compute. reflexivity.
  - split; [reflexivity|]. exact (He eq_refl).
Defined.

Lemma internal_paths_skip_auth_witness :
  AuthMiddleware two_body_Unmarshal "secret" fresh_writer internal_request
  = ServeNext fresh_writer internal_request /\
  AuthMiddleware two_body_Unmarshal "secret" fresh_writer internal_request_bad_token
  = ServeNext fresh_writer internal_request_bad_token.
Proof.
  apply (internal_paths_skip_auth two_body_Unmarshal "secret" fresh_writer
           internal_request internal_request_bad_token);
    try reflexivity.
  intros k Hk. simpl. now rewrite lookup_insert_ne.
Defined.

(** C8, counterexample: the connection breaks after the body bytes have
    arrived; the probe answers non-raw, the token is valid, and the inner
    handler receives a request whose body has nothing left. *)
Lemma probe_rule_fails :
  ~ probe_rule two_body_Unmarshal "secret" fresh_writer broken_post.
Proof.
  intros H. destruct (H eq_refl eq_refl) as [_ Hbody].
  specialize (Hbody fresh_writer
                (with_Body broken_post {| pending := ""; closing := ReadError |})
                eq_refl).
  vm_compute in Hbody. discriminate.
Qed.

Lemma raw_probe_frame_witness :
  snd (isRawMessage two_body_Unmarshal user_post) = user_post /\
  fst (isRawMessage two_body_Unmarshal user_post) = false.
Proof.
  destruct (raw_probe_frame two_body_Unmarshal "secret" fresh_writer user_post
              eq_refl eq_refl) as [Hc Hf].
  split.
  - exact (proj1 (Hf eq_refl)).
  - destruct (fst (isRawMessage two_body_Unmarshal user_post)) eqn:E; [|reflexivity].
    destruct (proj1 Hc eq_refl) as (_ & m & Hm & Ht).
    vm_compute in Hm. injection Hm as <-. discriminate.
Defined.

(** C2, counterexample: GET /status without a token is answered 401. *)
Lemma status_never_fails_fails :
  ~ status_never_fails two_body_Unmarshal "secret" stable status_request_anonymous.
Proof.
  intros H. destruct (H eq_refl eq_refl) as [Hs _].
  vm_compute in Hs. discriminate.
Qed.

Lemma status_path_not_exempt (json_Unmarshal : string -> option RawProbe) (r : Request) :
  Path r = "/status" -> exempt json_Unmarshal r = false /\ probed json_Unmarshal r = r.
Proof.
  intros Hp. unfold exempt, raw_post, probed. rewrite Hp. split; reflexivity.
Qed.

(** C2 (amended): a GET /status request whose Authorization header is
    "Bearer " followed by the token is answered 200 with the current status
    as a JSON object, whatever the status is; the only error response of the
    endpoint is the 401 of the middleware, given when that header is missing
    or different, in which case the status handler is not invoked. *)
Theorem status_endpoint (json_Unmarshal : string -> option RawProbe)
    (token : string) (current : AgentStatus) (r : Request) :
  Method r = "GET" -> Path r = "/status" ->
  (Get (Headers r) "Authorization" = bearer token ->
   status (statusEndpoint json_Unmarshal token current r) = StatusOK /\
   out_body (statusEndpoint json_Unmarshal token current r) = status_json current) /\
  (Get (Headers r) "Authorization" <> bearer token ->
   status (statusEndpoint json_Unmarshal token current r) = StatusUnauthorized /\
   invocations (AuthMiddleware json_Unmarshal token fresh_writer r) = []).
Proof.
  intros _ Hp. destruct (status_path_not_exempt json_Unmarshal r Hp) as [He Hr].
  unfold statusEndpoint. rewrite AuthMiddleware_cases, He, Hr. split.
  - intros Hb. rewrite token_gate_pass by exact Hb. split; reflexivity.
  - intros Hne. destruct (token_gate_deny token fresh_writer r Hne) as (w' & -> & Hs).
    split; [exact Hs | reflexivity].
Qed.

Lemma status_endpoint_witness :
  status (statusEndpoint two_body_Unmarshal "secret" changing status_request_authorized)
    = 200 /\
  status (statusEndpoint two_body_Unmarshal "secret" changing status_request_anonymous)
    = 401.
Proof.
  split.
  - apply (status_endpoint two_body_Unmarshal "secret" changing
             status_request_authorized eq_refl eq_refl).
    vm_compute. reflexivity.
  - apply (status_endpoint two_body_Unmarshal "secret" changing
             status_request_anonymous eq_refl eq_refl).
    vm_compute. discriminate.
Defined.

End HttpApi.

(** * cmd/quickstart/quickstart.go: the order of start-up and shutdown *)
Module Quickstart.

(** The statement of [runQuickstart] (and of [waitForInterrupt], which it
    calls last) that the main goroutine executes next. *)
Inductive Pc :=
| AtGenerateSession      (* Step 1 *)
| AtStartClaude          (* Step 2: startClaudeCode, then defer claudeProcess.Close *)
| AtNewServer            (* Step 3: startAuthenticatedServer *)
| AtGoServe              (* go func() { server.Start() ... }() *)
| AtSleep                (* time.Sleep(1 * time.Second) *)
| AtCheckProviders       (* Step 4 *)
| AtEstablishTunnel      (* Step 5 *)
| AtRegister             (* Step 6 *)
| AtDisplay              (* Step 7 *)
| AtSnapshotLoop         (* Step 8: server.StartSnapshotLoop(ctx) *)
| AtWait                 (* Step 9: the select of waitForInterrupt *)
| AtStop                 (* server.Stop(shutdownCtx) *)
| AtCancel               (* cancel() closing waitForInterrupt *)
| AtDeferredClose        (* deferred claudeProcess.Close(logger, 10s) *)
| AtDeferredCancel       (* deferred cancel() *)
| Returned
| Exited.                (* os.Exit(1): deferred calls do not run *)

(** The goroutine that runs [server.Start()]. *)
Inductive Srv :=
| NoServer               (* not created yet *)
| Created                (* NewServerWithAuth returned *)
| Launched               (* the goroutine exists, Start is not listening yet *)
| Serving                (* Start is accepting requests *)
| Returning              (* Start has returned; after an error cancel() is next *)
| Stopped.

Inductive Pty := NoPty | PtyOpen | PtyClosed.

Record State := {
  pc : Pc;
  srv : Srv;
  pty : Pty;
  ctx_cancelled : bool;    (* cancel() has been called on ctx *)
  loop_started : bool;     (* StartSnapshotLoop(ctx) has been called *)
  registered : bool        (* coordinator.Register succeeded *)
}.

Definition initial : State :=
  {| pc := AtGenerateSession; srv := NoServer; pty := NoPty;
     ctx_cancelled := false; loop_started := false; registered := false |}.

Definition goto (p : Pc) (s : State) : State :=
  {| pc := p; srv := srv s; pty := pty s; ctx_cancelled := ctx_cancelled s;
     loop_started := loop_started s; registered := registered s |}.

Definition set_srv (v : Srv) (s : State) : State :=
  {| pc := pc s; srv := v; pty := pty s; ctx_cancelled := ctx_cancelled s;
     loop_started := loop_started s; registered := registered s |}.

Definition set_pty (v : Pty) (s : State) : State :=
  {| pc := pc s; srv := srv s; pty := v; ctx_cancelled := ctx_cancelled s;
     loop_started := loop_started s; registered := registered s |}.

Definition cancel (s : State) : State :=
  {| pc := pc s; srv := srv s; pty := pty s; ctx_cancelled := true;
     loop_started := loop_started s; registered := registered s |}.

Definition start_loop (s : State) : State :=
  {| pc := pc s; srv := srv s; pty := pty s; ctx_cancelled := ctx_cancelled s;
     loop_started := true; registered := registered s |}.

Definition set_registered (s : State) : State :=
  {| pc := pc s; srv := srv s; pty := pty s; ctx_cancelled := ctx_cancelled s;
     loop_started := loop_started s; registered := true |}.

(** What happens next: the main goroutine runs its statement ([ok] tells
    whether the call it makes succeeds, for the calls that can fail), a
    signal arrives, or the server goroutine moves. *)
Inductive Event :=
| Main (ok : bool)
| Interrupt              (* SIGINT or SIGTERM *)
| ServerListens          (* server.Start begins to accept connections *)
| ServerErrs             (* server.Start returns an error *)
| ServerCancels.         (* the goroutine calls cancel() after the error *)

Definition alive (s : State) : bool :=
  match pc s with Returned | Exited => false | _ => true end.

(** [server.Stop]: a server that was started stops accepting requests and
    its [Start] returns; one that was not started stays as it is. *)
Definition shut_down (v : Srv) : Srv :=
  match v with
  | Launched | Serving | Returning => Returning
  | other => other
  end.

(** One statement of the main goroutine. *)
Definition runQuickstart_step (ok : bool) (s : State) : option State :=
  match pc s with
  | AtGenerateSession => Some (goto AtStartClaude s)
  | AtStartClaude =>
      if ok then Some (goto AtNewServer (set_pty PtyOpen s)) else Some (goto Exited s)
  | AtNewServer => Some (goto AtGoServe (set_srv Created s))
  | AtGoServe => Some (goto AtSleep (set_srv Launched s))
  | AtSleep => Some (goto AtCheckProviders s)
  | AtCheckProviders => Some (goto (if ok then AtEstablishTunnel else Exited) s)
  | AtEstablishTunnel => Some (goto (if ok then AtRegister else Exited) s)
  | AtRegister =>
      if ok then Some (goto AtDisplay (set_registered s)) else Some (goto Exited s)
  | AtDisplay => Some (goto AtSnapshotLoop s)
  | AtSnapshotLoop => Some (goto AtWait (start_loop s))
  | AtWait => if ctx_cancelled s then Some (goto AtStop s) else None   (* <-ctx.Done() *)
  | AtStop => Some (goto AtCancel (set_srv (shut_down (srv s)) s))
  | AtCancel => Some (goto AtDeferredClose (cancel s))
  | AtDeferredClose => Some (goto AtDeferredCancel (set_pty PtyClosed s))
  | AtDeferredCancel => Some (goto Returned (cancel s))
  | Returned | Exited => None
  end.

Definition step (e : Event) (s : State) : option State :=
  if negb (alive s) then None
  else
    match e with
    | Main ok => runQuickstart_step ok s
    | Interrupt =>
        match pc s with AtWait => Some (goto AtStop s) | _ => None end   (* <-sigCh *)
    | ServerListens =>
        match srv s with Launched => Some (set_srv Serving s) | _ => None end
    | ServerErrs =>
        match srv s with
        | Launched | Serving => Some (set_srv Returning s)
        | _ => None
        end
    | ServerCancels =>
        match srv s with Returning => Some (set_srv Stopped (cancel s)) | _ => None end
    end.

Fixpoint run (es : list Event) (s : State) : option State :=
  match es with
  | [] => Some s
  | e :: es' => match step e s with Some s' => run es' s' | None => None end
  end.

Definition reachable (s : State) : Prop := exists es, run es initial = Some s.

(** The HTTP server answers requests. *)
Definition serving (s : State) : bool :=
  alive s && match srv s with Serving => true | _ => false end.

(** Modelled from the spec: [StartSnapshotLoop] is defined in the absent
    lib/httpapi/server.go; it starts the background task on [ctx], and
    cancelling [ctx] cancels the task. *)
Definition loop_cancelled (s : State) : bool := loop_started s && ctx_cancelled s.

(** The order as claimed: the loop runs whenever the server serves, and the
    loop is cancelled by the time the PTY is closed. *)
Definition loop_from_server_start : Prop :=
  forall s, reachable s ->
    (serving s = true -> loop_started s = true) /\
    (pty s = PtyClosed -> loop_cancelled s = true).

Definition launched (v : Srv) : bool :=
  match v with NoServer | Created => false | _ => true end.

Definition pty_is (v w : Pty) : bool :=
  match v, w with
  | NoPty, NoPty | PtyOpen, PtyOpen | PtyClosed, PtyClosed => true
  | _, _ => false
  end.

(** What holds at each statement of the main goroutine. *)
Definition inv (s : State) : bool :=
  match pc s with
  | AtGenerateSession | AtStartClaude =>
      negb (loop_started s) && pty_is (pty s) NoPty && negb (launched (srv s))
  | AtNewServer | AtGoServe =>
      negb (loop_started s) && pty_is (pty s) PtyOpen && negb (launched (srv s))
  | AtSleep | AtCheckProviders | AtEstablishTunnel | AtRegister =>
      negb (loop_started s) && pty_is (pty s) PtyOpen && launched (srv s)
  | AtDisplay | AtSnapshotLoop =>
      negb (loop_started s) && pty_is (pty s) PtyOpen && launched (srv s)
      && registered s
  | AtWait | AtStop | AtCancel =>
      loop_started s && pty_is (pty s) PtyOpen && launched (srv s) && registered s
  | AtDeferredClose =>
      loop_started s && pty_is (pty s) PtyOpen && launched (srv s) && registered s
      && ctx_cancelled s
  | AtDeferredCancel | Returned =>
      loop_started s && pty_is (pty s) PtyClosed && launched (srv s) && registered s
      && ctx_cancelled s
  | Exited =>
      negb (loop_started s) && negb (pty_is (pty s) PtyClosed)
  end.

(** The execution in which the server goroutine starts to listen during the
    one-second sleep that follows its launch. *)
Definition serving_during_sleep : list Event :=
  [Main true; Main true; Main true; Main true; ServerListens].

(** A complete execution: start-up, an interrupt, shutdown. *)
Definition interrupted_session : list Event :=
  [Main true; Main true; Main true; Main true; ServerListens;
   Main true; Main true; Main true; Main true; Main true; Main true;
   Interrupt; Main true; Main true; Main true; Main true].

(** *** An invariant of every execution *)

Lemma inv_step (e : Event) (s s' : State) :
  inv s = true -> step e s = Some s' -> inv s' = true.
Proof.
  destruct s as [p v t c l r]. unfold step, inv. simpl.
  (* the invariant fixes most of the state at each statement *)
  destruct p; simpl; try discriminate;
    destruct l; simpl; try discriminate;
    destruct t; simpl; try discriminate;
    destruct v; simpl; try discriminate;
    destruct r; simpl; try discriminate;
    destruct e as [[|]| | | |]; simpl; try discriminate;
    destruct c; simpl; try discriminate;
    intros _ [= <-]; reflexivity.
Qed.

Lemma inv_run (es : list Event) (s s' : State) :
  inv s = true -> run es s = Some s' -> inv s' = true.
Proof.
  revert s. induction es as [|e es IH]; intros s Hs; simpl.
  - now intros [= <-].
  - destruct (step e s) as [s1|] eqn:E; [|discriminate].
    apply IH. exact (inv_step e s s1 Hs E).
Qed.

Lemma inv_reachable (s : State) : reachable s -> inv s = true.
Proof. intros [es H]. exact (inv_run es initial s eq_refl H). Qed.

Example serving_during_sleep_state :
  run serving_during_sleep initial =
  Some {| pc := AtSleep; srv := Serving; pty := PtyOpen;
          ctx_cancelled := false; loop_started := false; registered := false |}.
Proof. reflexivity. Qed.

(** The execution that finds no tunnel provider: the server has served for
    a second and the process exits with the loop never started. *)
Example no_provider_never_starts_loop :
  run (serving_during_sleep ++ [Main true; Main false]) initial =
  Some {| pc := Exited; srv := Serving; pty := PtyOpen;
          ctx_cancelled := false; loop_started := false; registered := false |}.
Proof. reflexivity. Qed.

(** C3, counterexample: during the sleep after [go server.Start()] the
    server serves requests and the snapshot loop has not been started. *)
Lemma loop_from_server_start_fails : ~ loop_from_server_start.
Proof.
  intros H.
  destruct (H _ (ex_intro _ serving_during_sleep serving_during_sleep_state)) as [Hs _].
  specialize (Hs eq_refl). discriminate.
Qed.

(** C3 (amended): in every execution of the quickstart command the snapshot
    loop is started as Step 8, after the server goroutine has been launched,
    the agent started and the session registered, and before the command
    waits for an interrupt (the server may serve requests before that, and
    an execution that exits during start-up never starts the loop); and on
    shutdown the context of the loop is cancelled before the PTY is closed. *)
Theorem snapshot_loop_order (s : State) :
  reachable s ->
  (loop_started s = true ->
   launched (srv s) = true /\ registered s = true /\ pty s <> NoPty) /\
  (pc s = AtWait -> loop_started s = true) /\
  (pc s = Exited -> loop_started s = false) /\
  (pty s = PtyClosed -> loop_cancelled s = true).
Proof.
  intros Hr. apply inv_reachable in Hr. unfold loop_cancelled.
  destruct s as [p v t c l r]. unfold inv in Hr. simpl in *.
  destruct p, t, l, r, c, (launched v); simpl in Hr; try discriminate;
    repeat split; intros; congruence.
Qed.

Lemma snapshot_loop_order_witness :
  run interrupted_session initial =
  Some {| pc := Returned; srv := Returning; pty := PtyClosed;
          ctx_cancelled := true; loop_started := true; registered := true |} /\
  loop_cancelled {| pc := Returned; srv := Returning; pty := PtyClosed;
                    ctx_cancelled := true; loop_started := true; registered := true |}
  = true.
Proof.
  split; [reflexivity|].
  apply (snapshot_loop_order
           {| pc := Returned; srv := Returning; pty := PtyClosed;
              ctx_cancelled := true; loop_started := true; registered := true |});
    [exists interrupted_session|]; reflexivity.
Defined.

End Quickstart.

(** * cmd/quickstart/session.go and the passcode check of the coordinator worker *)
Module Session.

Local Open Scope Z_scope.

(** Character set for passcode generation. *)
Definition passcodeChars : string := "ABCDEFGHJKLMNPQRSTUVWXYZ23456789".

(** [s[i]] for a Go [int] index: a byte, or a panic (here [None]) when the
    index is negative or not below [len(s)]. *)
Definition index (s : string) (i : Z) : option ascii :=
  if i <? 0 then None else String.get (Z.to_nat i) s.

(** [len(s)] as a Go [int]. *)
Definition len (s : string) : Z := Z.of_nat (String.length s).

(** The character class of the worker's
    [/^[ABCDEFGHJKLMNPQRSTUVWXYZ23456789]{6}$/]. *)
Definition in_class (c : ascii) : bool :=
  existsb (Ascii.eqb c) (list_ascii_of_string "ABCDEFGHJKLMNPQRSTUVWXYZ23456789").

(** [passcodeRegex.test(passcode)]: six characters, each of the class. *)
Definition passcodeRegex_test (passcode : string) : bool :=
  Nat.eqb (String.length passcode) 6
  && forallb in_class (list_ascii_of_string passcode).

(** The answers of POST /register that depend on the request fields. *)
Inductive RegisterReply :=
| MissingFields      (* 400, "Missing required fields" *)
| InvalidFormat      (* 400, "Invalid passcode format" *)
| Registered.        (* 200 *)

(** The validation of POST /register; an empty string is falsy. *)
Definition register_reply (passcode tunnel_url token : string) : RegisterReply :=
  if (passcode =? "")%string || (tunnel_url =? "")%string || (token =? "")%string
  then MissingFields
  else if negb (passcodeRegex_test passcode) then InvalidFormat
  else Registered.

(** A deterministic stand-in for the entropy source, to run the generator:
    the state is a counter. *)
Definition counter_rand_Int (src : Z) (max : Z) : option (Z * Z) :=
  if 0 <? max then Some ((7 * src + 3) mod max, src + 1) else None.

Section Random.

(** The state of the entropy source behind [rand.Reader]. *)
Variable Source : Type.

(** [rand.Int(rand.Reader, max)] of crypto/rand: a number and the source
    afterwards, or [None] when reading the source fails. *)
Variable rand_Int : Source -> Z -> option (Z * Source).

(** The reader works: every draw succeeds, within the documented range
    [0, max). *)
Definition reader_works : Prop :=
  forall src max, 0 < max ->
    exists n src', rand_Int src max = Some (n, src') /\ 0 <= n < max.

(** Computations that draw from the source and may panic. *)
Definition Rand (A : Type) : Type := Source -> option (A * Source).

Definition ret {A : Type} (a : A) : Rand A := fun src => Some (a, src).

Definition bind {A B : Type} (m : Rand A) (k : A -> Rand B) : Rand B :=
  fun src => match m src with
             | Some (a, src') => k a src'
             | None => None
             end.

Definition panic {A : Type} : Rand A := fun _ => None.

Notation "'let*' x := m 'in' k" := (bind m (fun x => k))
  (at level 10, x name, m at level 100, k at level 200).

(** [randInt]: a failed read panics. *)
Definition randInt (max : Z) : Rand Z :=
  fun src => rand_Int src max.

(** The loop [for i := range passcode] over the [n] remaining positions. *)
Fixpoint fill (n : nat) : Rand (list ascii) :=
  match n with
  | O => ret []
  | S n' =>
      let* k := randInt (len passcodeChars) in
      match index passcodeChars k with
      | None => panic
      | Some c => let* rest := fill n' in ret (c :: rest)
      end
  end.

Definition generatePasscode : Rand string :=
  let* passcode := fill 6 in ret (string_of_list_ascii passcode).

(** *** The generated passcode *)

Lemma get_In (s : string) (n : nat) (c : ascii) :
  String.get n s = Some c -> In c (list_ascii_of_string s).
Proof.
  revert n. induction s as [|d s IH]; intros n; simpl; [destruct n; discriminate|].
  destruct n as [|n].
  - intros [= ->]. now left.
  - intros H. right. exact (IH n H).
Qed.

Lemma index_In (k : Z) (c : ascii) :
  index passcodeChars k = Some c -> In c (list_ascii_of_string passcodeChars).
Proof.
  unfold index. destruct (k <? 0); [discriminate|]. apply get_In.
Qed.

Lemma index_defined (k : Z) :
  0 <= k < len passcodeChars -> exists c, index passcodeChars k = Some c.
Proof.
  intros [Hlo Hhi]. unfold index.
  destruct (Z.ltb_spec k 0) as [|_]; [lia|].
  assert (Hn : (Z.to_nat k < String.length passcodeChars)%nat) by (unfold len in Hhi; lia).
  revert Hn. generalize (Z.to_nat k) as n. generalize passcodeChars as s.
  induction s as [|d s IH]; intros n Hn; simpl in *; [lia|].
  destruct n as [|n]; [eauto|]. apply IH. lia.
Qed.

Lemma fill_sound (n : nat) (src src' : Source) (cs : list ascii) :
  fill n src = Some (cs, src') ->
  length cs = n /\ Forall (fun c => In c (list_ascii_of_string passcodeChars)) cs.
Proof.
  revert src src' cs. induction n as [|n IH]; intros src src' cs; simpl.
  - intros [= <- _]. split; [reflexivity | constructor].
  - unfold bind, randInt.
    destruct (rand_Int src (len passcodeChars)) as [[k src1]|]; [|discriminate].
    destruct (index passcodeChars k) as [c|] eqn:Hc; [|discriminate].
    destruct (fill n src1) as [[rest src2]|] eqn:Hrest; [|discriminate].
    intros [= <- _]. destruct (IH _ _ _ Hrest) as [Hlen Hall].
    split; [simpl; now rewrite Hlen|].
    constructor; [exact (index_In k c Hc) | exact Hall].
Qed.

Lemma fill_returns (n : nat) (src : Source) :
  reader_works -> exists cs src', fill n src = Some (cs, src').
Proof.
  intros Hw. revert src. induction n as [|n IH]; intros src; simpl.
  - now exists [], src.
  - unfold bind, randInt.
    destruct (Hw src (len passcodeChars)) as (k & src1 & -> & Hk); [reflexivity|].
    destruct (index_defined k Hk) as [c ->].
    destruct (IH src1) as (rest & src2 & ->).
    now exists (c :: rest), src2.
Qed.

End Random.

Example passcode_from_counter :
  generatePasscode Z counter_rand_Int 0 = Some ("DLT29G"%string, 6).
Proof. vm_compute. reflexivity. Qed.

Lemma length_string_of_list_ascii (cs : list ascii) :
  String.length (string_of_list_ascii cs) = length cs.
Proof. induction cs as [|c cs IH]; simpl; [reflexivity | now rewrite IH]. Qed.

Lemma in_class_In (c : ascii) :
  In c (list_ascii_of_string passcodeChars) -> in_class c = true.
Proof.
  intros H. unfold in_class. apply existsb_exists. exists c.
  split; [exact H | apply Ascii.eqb_refl].
Qed.

(** C10: when the entropy source works, generatePasscode returns; and every
    string it returns has exactly 6 characters, each of the alphabet
    "ABCDEFGHJKLMNPQRSTUVWXYZ23456789", so it passes the regular expression
    of the coordinator worker and POST /register never answers it with the
    invalid-format error. *)
Theorem generated_passcode_valid (Source : Type)
    (rand_Int : Source -> Z -> option (Z * Source)) (src : Source) :
  (reader_works Source rand_Int ->
   exists p src', generatePasscode Source rand_Int src = Some (p, src')) /\
  (forall p src', generatePasscode Source rand_Int src = Some (p, src') ->
   String.length p = 6%nat /\
   Forall (fun c => In c (list_ascii_of_string passcodeChars)) (list_ascii_of_string p) /\
   passcodeRegex_test p = true /\
   forall tunnel_url token, register_reply p tunnel_url token <> InvalidFormat).
Proof.
  unfold generatePasscode, bind, ret. split.
  - intros Hw. destruct (fill_returns Source rand_Int 6 src Hw) as (cs & src' & ->).
    eauto.
  - intros p src'.
    destruct (fill Source rand_Int 6 src) as [[cs src1]|] eqn:Hfill; [|discriminate].
    intros [= <- _]. destruct (fill_sound _ _ _ _ _ _ Hfill) as [Hlen Hall].
    assert (Hre : passcodeRegex_test (string_of_list_ascii cs) = true).
    { unfold passcodeRegex_test.
      rewrite length_string_of_list_ascii, Hlen, list_ascii_of_string_of_list_ascii.
      simpl. apply forallb_forall. intros c Hc. apply in_class_In.
      rewrite Forall_forall in Hall. apply Hall. now apply list_elem_of_In. }
    rewrite length_string_of_list_ascii, list_ascii_of_string_of_list_ascii.
    repeat split; try assumption.
    intros tunnel_url token. unfold register_reply. rewrite Hre. simpl.
    now destruct (_ || _ || _)%bool.
Qed.

Lemma counter_reader_works : reader_works Z counter_rand_Int.
Proof.
  intros src max Hmax. unfold counter_rand_Int.
  destruct (Z.ltb_spec 0 max) as [_|]; [|lia].
  eexists _, _. split; [reflexivity|]. apply Z.mod_pos_bound. lia.
Qed.

Lemma generated_passcode_valid_witness :
  generatePasscode Z counter_rand_Int 0 = Some ("DLT29G"%string, 6) /\
  passcodeRegex_test "DLT29G" = true /\
  register_reply "DLT29G" "https://abc.lhr.life" "tok" = Registered.
Proof.
  destruct (generated_passcode_valid Z counter_rand_Int 0) as [Hret Hok].
  destruct (Hret counter_reader_works) as (p & src' & Hp).
  split; [reflexivity|].
  split; [exact (proj1 (proj2 (proj2 (Hok _ _ passcode_from_counter)))) | reflexivity].
Defined.

End Session.

(** * The screen tracker (spec section 4.3) *)
Module ScreenTracker.

(** Operating parameters, in milliseconds. *)
Record Config := {
  sampling_period : nat;
  stability_window : nat;
  startup_quiet : nat;
  margin : nat
}.

Definition default_config : Config :=
  {| sampling_period := 25; stability_window := 250; startup_quiet := 1000;
     margin := 2 |}.

(** The number N of samples that cover the stability window:
    ceil(stability window / sampling period). *)
Definition window_samples (cfg : Config) : nat :=
  (stability_window cfg + sampling_period cfg - 1) / sampling_period cfg.

Definition ring_capacity (cfg : Config) : nat := window_samples cfg + margin cfg.

(** A snapshot sample. *)
Record Sample := {
  timestamp : nat;
  text : string;
  cursor_row : nat;
  cursor_col : nat
}.

(** The tracker: the start of the process, the ring of samples (newest
    first) and the status. *)
Record Tracker := {
  started : nat;
  history : list Sample;
  current : AgentStatus
}.

(** What a tick observes: the clock, the screen, and whether the child has
    exited. *)
Record Observation := {
  now : nat;
  screen : string;
  row : nat;
  col : nat;
  child_exited : bool
}.

Definition sample_of (o : Observation) : Sample :=
  {| timestamp := now o; text := screen o; cursor_row := row o; cursor_col := col o |}.

(** The bounded ring: the newest sample in front, older samples dropped. *)
Definition push (cfg : Config) (s : Sample) (h : list Sample) : list Sample :=
  take (ring_capacity cfg) (s :: h).

(** All texts of the samples are byte-equal (the cursor is not compared). *)
Definition same_texts (l : list Sample) : bool :=
  match l with
  | [] => true
  | s :: rest => forallb (fun s' => text s' =? text s) rest
  end.

(** The most recent N samples exist and carry the same text. *)
Definition window_stable (cfg : Config) (h : list Sample) : bool :=
  Nat.eqb (length (take (window_samples cfg) h)) (window_samples cfg)
  && same_texts (take (window_samples cfg) h).

(** Modelled from the spec: the classification algorithm of section 4.3,
    steps 1 and 2 (lib/screentracker is not among the sources). *)
Definition classify (cfg : Config) (elapsed : nat) (h : list Sample) : AgentStatus :=
  if (elapsed <? startup_quiet cfg)%nat then initializing
  else if window_stable cfg h then stable
  else changing.

(** Modelled from the spec: one tick of the tracker. Step 3 of the
    classification: once the child has exited the status is terminated, and
    "terminated is terminal"; otherwise the screen is sampled into the ring
    and classified. *)
Definition tick (cfg : Config) (t : Tracker) (o : Observation) : Tracker :=
  match current t with
  | terminated => t
  | _ =>
      if child_exited o then
        {| started := started t; history := history t; current := terminated |}
      else
        let h := push cfg (sample_of o) (history t) in
        {| started := started t; history := h;
           current := classify cfg (now o - started t) h |}
  end.

Definition ticks (cfg : Config) (t : Tracker) (os : list Observation) : Tracker :=
  fold_left (tick cfg) os t.

(** Modelled from the spec: the tracker at process start, before the first
    tick: no sample yet. *)
Definition start_tracker (start : nat) : Tracker :=
  {| started := start; history := []; current := initializing |}.

(** The N most recent samples of a ring exist and carry the same text. *)
Definition recent_texts_equal (cfg : Config) (h : list Sample) : Prop :=
  window_samples cfg <= length h /\
  forall i j si sj,
    i < window_samples cfg -> j < window_samples cfg ->
    h !! i = Some si -> h !! j = Some sj -> text si = text sj.

(** The claim's wording: N is the number of samples that cover the
    stability window, the least number of sampling periods that reach it. *)
Definition covers_window (cfg : Config) (N : nat) : Prop :=
  stability_window cfg <= N * sampling_period cfg /\
  forall M, stability_window cfg <= M * sampling_period cfg -> N <= M.

(** The claim's wording: all of the most recent N snapshot texts are
    byte-equal. [observed] are the screens that the ticks found, the oldest
    first; the most recent is the one of the present tick. *)
Definition recent_snapshots_equal (N : nat) (observed : list Observation) : Prop :=
  N <= length observed /\
  forall i j oi oj,
    i < N -> j < N ->
    rev observed !! i = Some oi -> rev observed !! j = Some oj ->
    screen oi = screen oj.

Definition running_child (o : Observation) : Prop := child_exited o = false.

(** Nine ticks over an unchanged screen after the quiet window, the tenth
    tick, and the exit of the child. *)
Definition same_screen : Observation :=
  {| now := 1225; screen := "> "; row := 0; col := 2; child_exited := false |}.

Definition other_screen : Observation :=
  {| now := 1225; screen := "> ."; row := 0; col := 3; child_exited := false |}.

Definition exit_seen : Observation :=
  {| now := 1250; screen := "> "; row := 0; col := 2; child_exited := true |}.

(** *** Classification *)

Lemma same_texts_spec (l : list Sample) :
  same_texts l = true <->
  forall i j si sj, l !! i = Some si -> l !! j = Some sj -> text si = text sj.
Proof.
  destruct l as [|s rest]; simpl.
  - split; [intros _ i j si sj H; destruct i; discriminate | reflexivity].
  - rewrite forallb_forall. split.
    + intros H i j si sj Hi Hj.
      assert (Hall : forall k sk, (s :: rest) !! k = Some sk -> text sk = text s).
      { intros [|k] sk; simpl; [now intros [= ->]|].
        intros Hk. apply String.eqb_eq, H, list_elem_of_In.
        apply list_elem_of_lookup. now exists k. }
      now rewrite (Hall i si Hi), (Hall j sj Hj).
    + intros H s' Hin. apply String.eqb_eq.
      apply list_elem_of_In, list_elem_of_lookup in Hin as [k Hk].
      exact (H (S k) 0 s' s Hk eq_refl).
Qed.

Lemma window_stable_spec (cfg : Config) (h : list Sample) :
  window_stable cfg h = true <-> recent_texts_equal cfg h.
Proof.
  unfold window_stable, recent_texts_equal.
  rewrite andb_true_iff, Nat.eqb_eq, same_texts_spec, length_take. split.
  - intros [Hlen Heq]. split; [lia|].
    intros i j si sj Hi Hj Hsi Hsj. apply (Heq i j).
    + now rewrite lookup_take_lt.
    + now rewrite lookup_take_lt.
  - intros [Hlen Heq]. split; [lia|].
    intros i j si sj Hsi Hsj.
    apply lookup_take_Some in Hsi as [Hsi Hi], Hsj as [Hsj Hj].
    exact (Heq i j si sj Hi Hj Hsi Hsj).
Qed.

Lemma tick_live (cfg : Config) (t : Tracker) (o : Observation) :
  current t <> terminated ->
  tick cfg t o =
  if child_exited o then
    {| started := started t; history := history t; current := terminated |}
  else
    {| started := started t; history := push cfg (sample_of o) (history t);
       current := classify cfg (now o - started t)
                    (push cfg (sample_of o) (history t)) |}.
Proof. intros H. unfold tick. destruct (current t); congruence. Qed.

Lemma ticks_terminated (cfg : Config) (os : list Observation) (t : Tracker) :
  current t = terminated -> ticks cfg t os = t.
Proof.
  intros H. unfold ticks. induction os as [|o os IH]; simpl; [reflexivity|].
  unfold tick at 2. rewrite H. exact IH.
Qed.

(** *** The ring holds the screens that the ticks found *)

Lemma take_cons_take {A} (c : nat) (x : A) (l : list A) :
  take c (x :: take c l) = take c (x :: l).
Proof.
  destruct c as [|c]; simpl; [reflexivity|]. f_equal.
  rewrite take_take. f_equal. lia.
Qed.

Lemma classify_live (cfg : Config) (elapsed : nat) (h : list Sample) :
  classify cfg elapsed h <> terminated.
Proof.
  unfold classify. destruct (elapsed <? startup_quiet cfg)%nat; [discriminate|].
  destruct (window_stable cfg h); discriminate.
Qed.

Lemma ticks_snoc (cfg : Config) (t : Tracker) (os : list Observation) (o : Observation) :
  ticks cfg t (os ++ [o]) = tick cfg (ticks cfg t os) o.
Proof. unfold ticks. now rewrite fold_left_app. Qed.

(** While the child runs, the tracker started at [start] is not terminated
    and its ring is the bounded list of the samples of all screens found,
    the newest in front. *)
Lemma ticks_running (cfg : Config) (start : nat) (os : list Observation) :
  Forall running_child os ->
  current (ticks cfg (start_tracker start) os) <> terminated /\
  started (ticks cfg (start_tracker start) os) = start /\
  history (ticks cfg (start_tracker start) os)
  = take (ring_capacity cfg) (map sample_of (rev os)).
Proof.
  induction os as [|o os IH] using rev_ind; intros Hlive.
  - simpl. split; [discriminate|]. split; [reflexivity|]. now rewrite take_nil.
  - apply Forall_app in Hlive as [Hos Ho]. apply Forall_inv in Ho.
    destruct (IH Hos) as (Hcur & Hst & Hh).
    rewrite ticks_snoc, (tick_live cfg _ o Hcur), Ho. cbn [current started history].
    split; [apply classify_live|]. split; [exact Hst|].
    rewrite Hh, rev_app_distr. cbn [rev app map]. unfold push.
    apply take_cons_take.
Qed.

Lemma covers_window_samples (cfg : Config) (N : nat) :
  covers_window cfg N -> N = window_samples cfg.
Proof.
  unfold covers_window, window_samples. intros [Hcov Hleast].
  destruct (sampling_period cfg) as [|p] eqn:Hp.
  - rewrite Nat.mul_0_r in Hcov. specialize (Hleast 0). simpl. lia.
  - set (w := stability_window cfg) in *.
    pose proof (Nat.div_mod_eq (w + S p - 1) (S p)) as Hdiv.
    pose proof (Nat.mod_upper_bound (w + S p - 1) (S p)) as Hmod.
    set (q := (w + S p - 1) / S p) in *.
    assert (Hq : w <= q * S p) by nia.
    specialize (Hleast q Hq). nia.
Qed.

Lemma recent_texts_of_ring (cfg : Config) (observed : list Observation) :
  recent_texts_equal cfg (take (ring_capacity cfg) (map sample_of (rev observed)))
  <-> recent_snapshots_equal (window_samples cfg) observed.
Proof.
  unfold recent_texts_equal, recent_snapshots_equal, ring_capacity.
  set (N := window_samples cfg). rewrite length_take, length_map, length_rev.
  assert (Hlook : forall i, i < N ->
            take (N + margin cfg) (map sample_of (rev observed)) !! i
            = sample_of <$> rev observed !! i).
  { intros i Hi. rewrite lookup_take_lt by lia. apply list_lookup_fmap. }
  split; intros [Hlen Heq]; (split; [lia|]).
  - intros i j oi oj Hi Hj Hoi Hoj.
    apply (Heq i j (sample_of oi) (sample_of oj) Hi Hj).
    + now rewrite (Hlook i Hi), Hoi.
    + now rewrite (Hlook j Hj), Hoj.
  - intros i j si sj Hi Hj Hsi Hsj.
    rewrite (Hlook i Hi) in Hsi. rewrite (Hlook j Hj) in Hsj.
    destruct (rev observed !! i) as [oi|] eqn:Hoi; [|discriminate].
    destruct (rev observed !! j) as [oj|] eqn:Hoj; [|discriminate].
    injection Hsi as <-. injection Hsj as <-. exact (Heq i j oi oj Hi Hj Hoi Hoj).
Qed.

(** C5: the tracker is started at [start] and ticks over the screens
    [observed], the child running. On the next tick, which finds the screen
    [o]: if the child still runs, the status is initializing when the time
    elapsed since process start is below the startup quiet window; otherwise
    it is stable exactly when the N most recent snapshot texts (those of the
    ticks so far and of this one) exist and are all byte-equal, N being the
    number of samples that cover the stability window, and changing if not.
    If the tick finds the child exited the status becomes terminated, and no
    later tick changes it. *)
Theorem tick_classification (cfg : Config) (start N : nat)
    (observed : list Observation) (o : Observation) :
  covers_window cfg N ->
  Forall running_child observed ->
  let t := ticks cfg (start_tracker start) observed in
  (child_exited o = false ->
   (now o - start < startup_quiet cfg ->
    current (tick cfg t o) = initializing) /\
   (startup_quiet cfg <= now o - start ->
    (current (tick cfg t o) = stable <->
     recent_snapshots_equal N (observed ++ [o])) /\
    (~ recent_snapshots_equal N (observed ++ [o]) ->
     current (tick cfg t o) = changing))) /\
  (child_exited o = true ->
   current (tick cfg t o) = terminated /\
   forall later, current (ticks cfg (tick cfg t o) later) = terminated).
Proof.
  intros HN Hlive t. rewrite (covers_window_samples cfg N HN).
  split.
  - intros Ho.
    assert (Hall : Forall running_child (observed ++ [o])).
    { apply Forall_app. split; [exact Hlive | now constructor]. }
    destruct (ticks_running cfg start observed Hlive) as (Hcur & Hst & _).
    destruct (ticks_running cfg start (observed ++ [o]) Hall) as (_ & _ & Hh).
    rewrite ticks_snoc in Hh. fold t in Hcur, Hst, Hh.
    rewrite <- recent_texts_of_ring, <- Hh, <- window_stable_spec.
    rewrite (tick_live cfg t o Hcur), Ho, Hst. cbn [current history].
    unfold classify. split; intros Hq.
    + apply Nat.ltb_lt in Hq. now rewrite Hq.
    + apply Nat.ltb_ge in Hq. rewrite Hq.
      destruct (window_stable cfg _);
        (split; [split; intros; congruence | intros; congruence]).
  - intros Ho.
    destruct (ticks_running cfg start observed Hlive) as (Hcur & _ & _). fold t in Hcur.
    rewrite (tick_live cfg t o Hcur), Ho.
    split; [reflexivity|]. intros later. now rewrite ticks_terminated.
Qed.

Example one_changed_screen :
  current (tick default_config
             (ticks default_config (start_tracker 0)
                (repeat same_screen 8 ++ [other_screen])) same_screen) = changing /\
  current (tick default_config
             (ticks default_config (start_tracker 0) (repeat same_screen 5)) same_screen)
  = changing.
Proof. split; reflexivity. Qed.

Lemma tick_classification_witness :
  current (tick default_config
             (ticks default_config (start_tracker 0) (repeat same_screen 9)) same_screen)
  = stable /\
  current (ticks default_config (start_tracker 0)
             (repeat same_screen 10 ++ [exit_seen; same_screen])) = terminated.
Proof.
  assert (HN : covers_window default_config 10).
  { split; [vm_compute; lia|]. intros M. cbn. lia. }
  destruct (tick_classification default_config 0 10 (repeat same_screen 9) same_screen HN)
    as [Hrun _]; [repeat constructor|].
  destruct (tick_classification default_config 0 10 (repeat same_screen 10) exit_seen HN)
    as [_ Hexit]; [repeat constructor|].
  cbv zeta in Hrun, Hexit. split.
  - destruct (Hrun eq_refl) as [_ Hq].
    destruct Hq as [Hiff _]; [vm_compute; lia|].
    apply Hiff. split; [vm_compute; lia|].
    intros i j oi oj Hi Hj Hoi Hoj.
    assert (Hsame : forall k ok, rev (repeat same_screen 9 ++ [same_screen]) !! k = Some ok ->
                                 ok = same_screen).
    { intros k ok Hk. apply list_elem_of_lookup_2, list_elem_of_In in Hk.
      apply in_rev, in_app_iff in Hk as [Hk|[Hk|[]]]; [|now symmetry].
      now apply repeat_spec in Hk. }
    now rewrite (Hsame i oi Hoi), (Hsame j oj Hoj).
  - destruct (Hexit eq_refl) as [_ Hlater].
    unfold ticks in *. rewrite fold_left_app. cbn [fold_left].
    exact (Hlater [same_screen]).
Defined.

End ScreenTracker.

(** * The message segmenter (spec section 4.4) *)
Module Segmenter.

Local Open Scope list_scope.

Inductive Role := user | agent | raw.

#[global] Instance Role_eq_dec : EqDecision Role.
Proof. solve_decision. Defined.

(** A message; the id is an opaque token, here the value of a counter. *)
Record Message := {
  id : nat;
  role : Role;
  content : string;
  time : nat
}.

(** The sealed messages in order, the open agent tail if there is one, and
    the supply of ids. *)
Record Conversation := {
  sealed : list Message;
  tail : option Message;
  next_id : nat
}.

Definition empty : Conversation := {| sealed := []; tail := None; next_id := 0 |}.

(** The transcript: the sealed messages followed by the open tail. *)
Definition transcript (s : Conversation) : list Message :=
  sealed s ++ option_list (tail s).

(** What reaches the segmenter: a submission of POST /message (type user
    or raw) or a stable snapshot, already reduced by the agent formatter to
    the reply text. *)
Inductive Input :=
| SubmitUser (text : string) (at_time : nat)
| SubmitRaw (keys : string)
| Stable (reply : string) (at_time : nat).

Definition with_content (m : Message) (c : string) : Message :=
  {| id := id m; role := role m; content := c; time := time m |}.

(** Modelled from the spec: a user submission seals the open agent tail and
    appends the user message at once, with a fresh id
    (lib/screentracker is not among the sources). *)
Definition submit_user (c : string) (now : nat) (s : Conversation) : Conversation :=
  {| sealed := transcript s
               ++ [{| id := next_id s; role := user; content := c; time := now |}];
     tail := None;
     next_id := S (next_id s) |}.

(** Modelled from the spec: a stable snapshot replaces the content of the
    open agent tail, or opens a new agent message with a fresh id. *)
Definition on_stable (reply : string) (now : nat) (s : Conversation) : Conversation :=
  match tail s with
  | Some m =>
      {| sealed := sealed s; tail := Some (with_content m reply);
         next_id := next_id s |}
  | None =>
      {| sealed := sealed s;
         tail := Some {| id := next_id s; role := agent; content := reply;
                         time := now |};
         next_id := S (next_id s) |}
  end.

(** Modelled from the spec: raw messages only write bytes to the PTY. *)
Definition feed (i : Input) (s : Conversation) : Conversation :=
  match i with
  | SubmitUser c now => submit_user c now s
  | SubmitRaw _ => s
  | Stable reply now => on_stable reply now s
  end.

Definition replay (inputs : list Input) (s : Conversation) : Conversation :=
  fold_left (fun s i => feed i s) inputs s.

Definition is_user (m : Message) : bool :=
  match role m with user => true | _ => false end.

(** The contents of the user messages of a transcript, in order. *)
Definition user_contents (l : list Message) : list string :=
  map content (List.filter is_user l).

(** The contents submitted with type user, in submission order. *)
Fixpoint submitted (inputs : list Input) : list string :=
  match inputs with
  | [] => []
  | SubmitUser c _ :: rest => c :: submitted rest
  | _ :: rest => submitted rest
  end.

Definition ids (l : list Message) : list nat := map id l.

(** The claim's wording, read off the inputs alone: the agent's turn is
    under way when a stable snapshot has arrived since the last user
    submission (the agent output between two user turns is one turn). *)
Definition turn_step (agent_turn : bool) (i : Input) : bool :=
  match i with
  | SubmitUser _ _ => false
  | SubmitRaw _ => agent_turn
  | Stable _ _ => true
  end.

Definition agent_turn_open (inputs : list Input) : bool :=
  fold_left turn_step inputs false.

(** The claim's wording: the input [i], arriving after [inputs], begins a
    new turn: a user submission, or the first stable snapshot since the last
    user submission. *)
Definition new_turn (inputs : list Input) (i : Input) : bool :=
  match i with
  | SubmitUser _ _ => true
  | SubmitRaw _ => false
  | Stable _ _ => negb (agent_turn_open inputs)
  end.

(** The number of turns in a sequence of inputs. *)
Fixpoint turns_from (agent_turn : bool) (inputs : list Input) : nat :=
  match inputs with
  | [] => 0
  | i :: rest =>
      (match i with
       | SubmitUser _ _ => 1
       | SubmitRaw _ => 0
       | Stable _ _ => if agent_turn then 0 else 1
       end + turns_from (turn_step agent_turn i) rest)%nat
  end.

Definition turns (inputs : list Input) : nat := turns_from false inputs.

(** The segmenter holds an open agent tail. *)
Definition tail_open (s : Conversation) : bool :=
  match tail s with Some _ => true | None => false end.

(** The input appends a message to the transcript: a user submission, or a
    stable snapshot that finds no open tail. *)
Definition begins_turn (i : Input) (s : Conversation) : bool :=
  match i with
  | SubmitUser _ _ => true
  | SubmitRaw _ => false
  | Stable _ _ => match tail s with None => true | Some _ => false end
  end.

(** Ids handed out so far are below the counter, and an open tail is an
    agent message. *)
Definition well_formed (s : Conversation) : Prop :=
  Forall (fun m => id m < next_id s) (transcript s) /\
  NoDup (ids (transcript s)) /\
  forall m, tail s = Some m -> role m = agent.

(** A user message, a reply that grows over three stable snapshots, and a
    second user message. *)
Definition streaming_reply : list Input :=
  [SubmitUser "hello" 1; Stable "thinking" 2; Stable "thinking." 3].

(** *** The transcript after one input *)

Lemma transcript_submit_user (c : string) (now : nat) (s : Conversation) :
  transcript (submit_user c now s) =
  transcript s ++ [{| id := next_id s; role := user; content := c; time := now |}].
Proof. unfold submit_user, transcript. simpl. now rewrite app_nil_r. Qed.

Lemma transcript_on_stable_open (reply : string) (now : nat) (s : Conversation) (m : Message) :
  tail s = Some m ->
  transcript s = sealed s ++ [m] /\
  transcript (on_stable reply now s) = sealed s ++ [with_content m reply].
Proof. intros H. unfold on_stable, transcript. now rewrite H. Qed.

Lemma transcript_on_stable_closed (reply : string) (now : nat) (s : Conversation) :
  tail s = None ->
  transcript (on_stable reply now s) =
  transcript s ++ [{| id := next_id s; role := agent; content := reply; time := now |}].
Proof.
  intros H. unfold on_stable, transcript. rewrite H. simpl. now rewrite app_nil_r.
Qed.

Lemma ids_app (l k : list Message) : ids (l ++ k) = ids l ++ ids k.
Proof. apply map_app. Qed.

Lemma fresh_id (s : Conversation) :
  Forall (fun m => id m < next_id s) (transcript s) ->
  next_id s ∉ ids (transcript s).
Proof.
  intros Hlt Hin. unfold ids in Hin.
  apply list_elem_of_In, in_map_iff in Hin as (m & Hid & Hm).
  rewrite Forall_forall in Hlt. apply list_elem_of_In in Hm.
  specialize (Hlt m Hm). lia.
Qed.

(** Appending a message with the next id keeps the ids below the advanced
    counter and distinct. *)
Lemma append_fresh (s : Conversation) (m : Message) :
  Forall (fun m => id m < next_id s) (transcript s) ->
  NoDup (ids (transcript s)) ->
  id m = next_id s ->
  Forall (fun m' => id m' < S (next_id s)) (transcript s ++ [m]) /\
  NoDup (ids (transcript s ++ [m])).
Proof.
  intros Hlt Hnd Hid. split.
  - apply Forall_app. split.
    + eapply Forall_impl; [exact Hlt|]. simpl. intros; lia.
    + constructor; [lia | constructor].
  - rewrite ids_app. apply NoDup_app. split; [exact Hnd|]. split.
    + intros x Hx Hx'. simpl in Hx'. apply list_elem_of_singleton in Hx'. subst x.
      rewrite Hid in Hx. exact (fresh_id s Hlt Hx).
    + simpl. apply NoDup_singleton.
Qed.

Lemma well_formed_empty : well_formed empty.
Proof.
  unfold well_formed, transcript. simpl.
  split; [constructor|]. split; [constructor | discriminate].
Qed.

Lemma well_formed_feed (i : Input) (s : Conversation) :
  well_formed s -> well_formed (feed i s).
Proof.
  intros (Hlt & Hnd & Hag). destruct i as [c now| keys | reply now]; simpl.
  - unfold well_formed. rewrite transcript_submit_user.
    destruct (append_fresh s {| id := next_id s; role := user; content := c; time := now |}
                Hlt Hnd eq_refl) as [H1 H2].
    split; [exact H1|]. split; [exact H2 | discriminate].
  - now split.
  - destruct (tail s) as [m|] eqn:Ht.
    + destruct (transcript_on_stable_open reply now s m Ht) as [Hold Hnew].
      unfold well_formed. rewrite Hnew. rewrite Hold in Hlt, Hnd.
      unfold on_stable. rewrite Ht. simpl.
      split; [|split].
      * apply Forall_app in Hlt as [Hs Hm]. apply Forall_app. split; [exact Hs|].
        constructor; [|constructor]. now inversion Hm.
      * rewrite ids_app in *. exact Hnd.
      * intros m' [= <-]. simpl. now apply Hag.
    + unfold well_formed. rewrite (transcript_on_stable_closed reply now s Ht).
      destruct (append_fresh s {| id := next_id s; role := agent; content := reply;
                                  time := now |} Hlt Hnd eq_refl) as [H1 H2].
      unfold on_stable. rewrite Ht. simpl.
      split; [exact H1|]. split; [exact H2|]. now intros m' [= <-].
Qed.

Lemma replay_app (xs ys : list Input) (s : Conversation) :
  replay (xs ++ ys) s = replay ys (replay xs s).
Proof. unfold replay. apply fold_left_app. Qed.

Lemma well_formed_replay (inputs : list Input) (s : Conversation) :
  well_formed s -> well_formed (replay inputs s).
Proof.
  revert s. induction inputs as [|i inputs IH]; intros s Hs; simpl; [exact Hs|].
  apply IH, well_formed_feed, Hs.
Qed.

Lemma user_contents_app (l k : list Message) :
  user_contents (l ++ k) = user_contents l ++ user_contents k.
Proof. unfold user_contents. now rewrite List.filter_app, map_app. Qed.

Lemma user_contents_feed (i : Input) (s : Conversation) :
  well_formed s ->
  user_contents (transcript (feed i s)) = user_contents (transcript s) ++ submitted [i].
Proof.
  intros (_ & _ & Hag). destruct i as [c now| keys | reply now]; simpl.
  - rewrite transcript_submit_user, user_contents_app. reflexivity.
  - now rewrite app_nil_r.
  - rewrite app_nil_r. destruct (tail s) as [m|] eqn:Ht.
    + destruct (transcript_on_stable_open reply now s m Ht) as [-> ->].
      rewrite !user_contents_app. f_equal.
      unfold user_contents, is_user. simpl. now rewrite (Hag m eq_refl).
    + rewrite (transcript_on_stable_closed reply now s Ht), user_contents_app.
      simpl. now rewrite app_nil_r.
Qed.

Lemma submitted_cons (i : Input) (inputs : list Input) :
  submitted (i :: inputs) = submitted [i] ++ submitted inputs.
Proof. destruct i; reflexivity. Qed.

Lemma user_contents_replay (inputs : list Input) (s : Conversation) :
  well_formed s ->
  user_contents (transcript (replay inputs s)) =
  user_contents (transcript s) ++ submitted inputs.
Proof.
  revert s. induction inputs as [|i inputs IH]; intros s Hs.
  - simpl. now rewrite app_nil_r.
  - change (replay (i :: inputs) s) with (replay inputs (feed i s)).
    rewrite (IH _ (well_formed_feed i s Hs)), (user_contents_feed i s Hs).
    now rewrite (submitted_cons i inputs), <- app_assoc.
Qed.

(** C6: after any sequence of inputs the user messages of the transcript
    are exactly the user submissions, as many and in submission order; and
    a user submission appends its message at once, at the end of the
    transcript, with the submitted content and an id that no earlier message
    carries. *)
Theorem user_submissions_recorded (inputs : list Input) :
  user_contents (transcript (replay inputs empty)) = submitted inputs /\
  length (List.filter is_user (transcript (replay inputs empty)))
  = length (submitted inputs) /\
  forall c now,
    exists m,
      transcript (submit_user c now (replay inputs empty))
      = transcript (replay inputs empty) ++ [m] /\
      role m = user /\ content m = c /\
      id m ∉ ids (transcript (replay inputs empty)).
Proof.
  pose proof (user_contents_replay inputs empty well_formed_empty) as Hc.
  simpl in Hc. split; [exact Hc|]. split.
  - rewrite <- Hc. unfold user_contents. now rewrite length_map.
  - intros c now. eexists. split; [apply transcript_submit_user|].
    repeat split. simpl. apply fresh_id.
    exact (proj1 (well_formed_replay inputs empty well_formed_empty)).
Qed.

(** *** Ids *)

Lemma ids_feed_same (i : Input) (s : Conversation) :
  begins_turn i s = false -> ids (transcript (feed i s)) = ids (transcript s).
Proof.
  destruct i as [c now| keys | reply now]; simpl; [discriminate | reflexivity |].
  destruct (tail s) as [m|] eqn:Ht; [intros _ | discriminate].
  destruct (transcript_on_stable_open reply now s m Ht) as [-> ->].
  now rewrite !ids_app.
Qed.

Lemma ids_feed_new (i : Input) (s : Conversation) :
  begins_turn i s = true ->
  ids (transcript (feed i s)) = ids (transcript s) ++ [next_id s].
Proof.
  destruct i as [c now| keys | reply now]; simpl; [intros _ | discriminate |].
  - now rewrite transcript_submit_user, ids_app.
  - destruct (tail s) as [m|] eqn:Ht; [discriminate | intros _].
    now rewrite (transcript_on_stable_closed reply now s Ht), ids_app.
Qed.

Lemma ids_prefix_feed (i : Input) (s : Conversation) :
  ids (transcript s) `prefix_of` ids (transcript (feed i s)).
Proof.
  destruct (begins_turn i s) eqn:E.
  - rewrite (ids_feed_new i s E). now apply prefix_app_r.
  - now rewrite (ids_feed_same i s E).
Qed.

Lemma ids_prefix_replay (more : list Input) (s : Conversation) :
  ids (transcript s) `prefix_of` ids (transcript (replay more s)).
Proof.
  revert s. induction more as [|i more IH]; intros s; [reflexivity|].
  change (replay (i :: more) s) with (replay more (feed i s)).
  etransitivity; [apply ids_prefix_feed | apply IH].
Qed.

(** *** Turns and the open tail *)

Lemma tail_open_feed (i : Input) (s : Conversation) :
  tail_open (feed i s) = turn_step (tail_open s) i.
Proof.
  destruct i as [c now| keys | reply now]; simpl; try reflexivity.
  unfold on_stable, tail_open. now destruct (tail s).
Qed.

Lemma tail_open_replay (inputs : list Input) (s : Conversation) :
  tail_open (replay inputs s) = fold_left turn_step inputs (tail_open s).
Proof.
  revert s. induction inputs as [|i inputs IH]; intros s; [reflexivity|].
  change (replay (i :: inputs) s) with (replay inputs (feed i s)).
  rewrite IH, tail_open_feed. reflexivity.
Qed.

(** The segmenter holds an open agent tail exactly while the agent's turn
    is under way. *)
Lemma tail_open_turn (inputs : list Input) :
  tail_open (replay inputs empty) = agent_turn_open inputs.
Proof. apply (tail_open_replay inputs empty). Qed.

Lemma begins_turn_new_turn (inputs : list Input) (i : Input) :
  begins_turn i (replay inputs empty) = new_turn inputs i.
Proof.
  destruct i as [c now| keys | reply now]; simpl; try reflexivity.
  rewrite <- tail_open_turn. unfold tail_open.
  now destruct (tail (replay inputs empty)).
Qed.

Lemma length_transcript_feed (i : Input) (s : Conversation) :
  length (transcript (feed i s))
  = (length (transcript s) + turns_from (tail_open s) [i])%nat.
Proof.
  unfold tail_open. destruct i as [c now| keys | reply now]; simpl.
  - rewrite transcript_submit_user, length_app. simpl. lia.
  - lia.
  - destruct (tail s) as [m|] eqn:Ht.
    + destruct (transcript_on_stable_open reply now s m Ht) as [-> ->].
      rewrite !length_app. simpl. lia.
    + rewrite (transcript_on_stable_closed reply now s Ht), length_app. simpl. lia.
Qed.

Lemma length_transcript_replay (inputs : list Input) (s : Conversation) :
  length (transcript (replay inputs s))
  = (length (transcript s) + turns_from (tail_open s) inputs)%nat.
Proof.
  revert s. induction inputs as [|i inputs IH]; intros s; [simpl; lia|].
  change (replay (i :: inputs) s) with (replay inputs (feed i s)).
  rewrite IH, length_transcript_feed, tail_open_feed.
  cbn [turns_from]. lia.
Qed.

(** C7: let [s] be the state reached by any sequence of inputs, a turn
    being a user submission or the agent output between two user
    submissions. A stable snapshot that arrives while the agent's turn is
    under way replaces the content of the last message of the transcript and
    nothing else: its id, role and time and all messages before it stay. An
    input that does not begin a turn leaves the ids of the transcript as they
    are; an input that begins a turn adds exactly one id, which no message
    carried before. The transcript holds one message, and so one id, for each
    turn; whatever inputs follow, the ids present in [s] stay at their
    positions and all ids remain distinct. *)
Theorem ids_stable_within_turn (inputs more : list Input) (i : Input) :
  let s := replay inputs empty in
  (forall reply now,
      i = Stable reply now -> agent_turn_open inputs = true ->
      exists front m,
        role m = agent /\
        transcript s = front ++ [m] /\
        transcript (feed i s)
        = front ++ [{| id := id m; role := role m; content := reply; time := time m |}]) /\
  (new_turn inputs i = false -> ids (transcript (feed i s)) = ids (transcript s)) /\
  (new_turn inputs i = true ->
   exists fresh,
     ids (transcript (feed i s)) = ids (transcript s) ++ [fresh] /\
     fresh ∉ ids (transcript s)) /\
  length (ids (transcript s)) = turns inputs /\
  ids (transcript s) `prefix_of` ids (transcript (replay more s)) /\
  NoDup (ids (transcript (replay more s))).
Proof.
  intros s.
  assert (Hwf : well_formed s) by apply well_formed_replay, well_formed_empty.
  rewrite <- (begins_turn_new_turn inputs i). fold s.
  split; [|split; [|split; [|split; [|split]]]].
  - intros reply now -> Hopen. rewrite <- tail_open_turn in Hopen. fold s in Hopen.
    unfold tail_open in Hopen. destruct (tail s) as [m|] eqn:Ht; [|discriminate].
    destruct (transcript_on_stable_open reply now s m Ht) as [Hold Hnew].
    exists (sealed s), m. split; [exact (proj2 (proj2 Hwf) m Ht)|].
    split; [exact Hold | exact Hnew].
  - apply ids_feed_same.
  - intros E. exists (next_id s). split; [now apply ids_feed_new|]. apply fresh_id, Hwf.
  - unfold ids. rewrite length_map. unfold s.
    now rewrite (length_transcript_replay inputs empty).
  - apply ids_prefix_replay.
  - exact (proj1 (proj2 (well_formed_replay more s Hwf))).
Qed.

Example streaming_transcript :
  transcript (replay (streaming_reply ++ [Stable "done." 4; SubmitUser "thanks" 5]) empty) =
  [ {| id := 0; role := user; content := "hello"; time := 1 |};
    {| id := 1; role := agent; content := "done."; time := 2 |};
    {| id := 2; role := user; content := "thanks"; time := 5 |} ].
Proof. reflexivity. Qed.

Lemma ids_stable_within_turn_witness :
  transcript (replay (streaming_reply ++ [Stable "done." 4]) empty)
  = [ {| id := 0; role := user; content := "hello"; time := 1 |};
      {| id := 1; role := agent; content := "done."; time := 2 |} ] /\
  ids (transcript (replay (streaming_reply ++ [Stable "done." 4]) empty)) = [0; 1] /\
  length (ids (transcript (replay streaming_reply empty))) = 2.
Proof.
  pose proof (ids_stable_within_turn streaming_reply [] (Stable "done." 4))
    as (Hupd & Hsame & _ & Hturns & _).
  cbv zeta in *. rewrite !replay_app. split; [|split].
  - destruct (Hupd _ _ eq_refl eq_refl) as (front & m & _ & Hold & Hnew).
    change (replay [Stable "done." 4] (replay streaming_reply empty))
      with (feed (Stable "done." 4) (replay streaming_reply empty)).
    rewrite Hnew.
    change (transcript (replay streaming_reply empty))
      with ([{| id := 0; role := user; content := "hello"; time := 1 |}]
            ++ [{| id := 1; role := agent; content := "thinking."; time := 2 |}]) in Hold.
    apply app_inj_tail in Hold as [<- <-]. reflexivity.
  - exact (Hsame eq_refl).
  - exact Hturns.
Defined.

End Segmenter.

(** * The coordinator worker (the Cloudflare Worker of the coordinator) *)
Module Worker.

Local Open Scope Z_scope.

Local Unset Elimination Schemes.

(** JSON values, as [JSON.stringify] receives them. *)
Inductive json :=
| JNull
| JBool (b : bool)
| JNum (n : Z)
| JStr (s : string)
| JArr (items : list json)
| JObj (fields : list (string * json)).

Local Set Elimination Schemes.

(** What [await request.json()] followed by the destructuring
    [{ passcode, tunnel_url, token }] gives: an exception (a body that is
    not JSON, or null), or the three properties, each a string or
    undefined. Properties of other JSON types are outside this type. *)
Inductive JsonRead :=
| Throws (message : string)
| Props (passcode tunnel_url token : option string).

Record Incoming := {
  method : string;
  pathname : string;        (* new URL(request.url).pathname *)
  read_json : JsonRead
}.

Record Response := {
  status : nat;
  headers : gmap string string;
  body : option json        (* None: new Response(null, ...) *)
}.

(** The object stored for a passcode. *)
Record SessionData := {
  tunnel_url : string;
  token : string;
  created_at : Z;           (* milliseconds *)
  expires_at : Z
}.

(** An entry of the KV namespace [env.SESSIONS]: the stored object and the
    [expirationTtl] of the put, in seconds. The namespace is a map that
    holds what was put: the removal of an entry after its time to live and
    the delay with which a put becomes visible are the platform's, not
    steps of [fetch]. *)
Record KVEntry := { stored : SessionData; expirationTtl : Z }.

Abbreviation KV := (gmap string KVEntry).

(** [!v] for a string or undefined. *)
Definition falsy (v : option string) : bool :=
  match v with
  | None => true
  | Some s => (s =? "")%string
  end.

(** [s.split(sep)] for a one-character separator: never empty. *)
Fixpoint split (sep : ascii) (s : string) : list string :=
  match s with
  | EmptyString => [EmptyString]
  | String c s' =>
      if Ascii.eqb c sep then EmptyString :: split sep s'
      else match split sep s' with
           | h :: t => String c h :: t
           | [] => [String c EmptyString]
           end
  end.

Definition slash : ascii := ascii_of_nat 47.

(** The CORS headers that every response carries. *)
Definition cors_headers : gmap string string :=
  <["Content-Type" := "application/json"]>
  (<["Access-Control-Allow-Headers" := "Content-Type, Authorization"]>
  (<["Access-Control-Allow-Methods" := "GET, POST, OPTIONS"]>
  (<["Access-Control-Allow-Origin" := "*"]> ∅))).

(** [new Response(JSON.stringify(j), { status, headers })] *)
Definition respond (code : nat) (j : json) : Response :=
  {| status := code; headers := cors_headers; body := Some j |}.

Definition error_body (msg : string) : json := JObj [("error", JStr msg)].

Definition missing_fields : json :=
  JObj [("success", JBool false);
        ("error", JStr "Missing required fields: passcode, tunnel_url, token")].

Definition invalid_format : json :=
  JObj [("success", JBool false);
        ("error", JStr "Invalid passcode format. Expected: 6-character alphanumeric code (e.g. ABC123)")].

Definition registered (passcode : string) : json :=
  JObj [("success", JBool true); ("passcode", JStr passcode);
        ("expires_in", JNum 86400);
        ("message", JStr "Session registered successfully")].

Definition session_json (d : SessionData) : json :=
  JObj [("tunnel_url", JStr (tunnel_url d)); ("token", JStr (token d));
        ("created_at", JNum (created_at d)); ("expires_at", JNum (expires_at d))].

Definition health_json (now : Z) : json :=
  JObj [("status", JStr "ok"); ("timestamp", JNum now); ("version", JStr "1.0.0")].

Definition docs : json :=
  JObj [("name", JStr "Claude Code Remote Coordinator");
        ("version", JStr "1.0.0");
        ("description",
         JStr "Coordinates passcode-based connections between Mac and iOS devices");
        ("endpoints",
         JObj [("POST /register",
                JStr "Register a new session with passcode, tunnel_url, and token");
               ("GET /lookup/:passcode", JStr "Get session details for a passcode");
               ("GET /health", JStr "Health check endpoint")]);
        ("example",
         JObj [("register",
                JObj [("method", JStr "POST"); ("url", JStr "/register");
                      ("body",
                       JObj [("passcode", JStr "ABC123");
                             ("tunnel_url", JStr "https://abc123.lhr.life");
                             ("token", JStr "eyJhbGciOiJIUzI1NiIsInR5cCI6IkpXVCJ9...")])]);
               ("lookup",
                JObj [("method", JStr "GET"); ("url", JStr "/lookup/ABC123")])])].

Definition not_found : json :=
  JObj [("error", JStr "Endpoint not found");
        ("available_endpoints",
         JArr [JStr "/register"; JStr "/lookup/:passcode"; JStr "/health"; JStr "/"])].

Definition internal_error (message : string) : json :=
  JObj [("error", JStr "Internal server error"); ("message", JStr message)].

(** The handler: the response and the namespace afterwards. [clock k] is
    the value of the k-th call of [Date.now()] made while the request is
    handled. *)
Definition fetch (clock : nat -> Z) (env : KV) (request : Incoming) : Response * KV :=
  if (method request =? "OPTIONS")%string then
    ({| status := 200; headers := cors_headers; body := None |}, env)
  else if ((pathname request =? "/register") && (method request =? "POST"))%string then
    match read_json request with
    | Throws message => (respond 500 (internal_error message), env)
    | Props passcode tunnel_url token =>
        if falsy passcode || falsy tunnel_url || falsy token then
          (respond 400 missing_fields, env)
        else if negb (Session.passcodeRegex_test (default "" passcode)) then
          (respond 400 invalid_format, env)
        else
          let sessionData :=
            {| tunnel_url := default "" tunnel_url; token := default "" token;
               created_at := clock 0%nat;
               expires_at := clock 1%nat + 24 * 60 * 60 * 1000 |} in
          (respond 200 (registered (default "" passcode)),
           <[default "" passcode := {| stored := sessionData; expirationTtl := 86400 |}]> env)
    end
  else if (HasPrefix (pathname request) "/lookup/" && (method request =? "GET"))%string then
    let passcode := split slash (pathname request) !! 2%nat in
    if falsy passcode then (respond 400 (error_body "Passcode is required"), env)
    else
      match env !! default "" passcode with
      | None => (respond 404 (error_body "Invalid or expired passcode"), env)
      | Some entry =>
          let sessionData := stored entry in
          if expires_at sessionData <? clock 0%nat then
            (respond 404 (error_body "Passcode has expired"),
             delete (default "" passcode) env)
          else (respond 200 (session_json sessionData), env)
      end
  else if ((pathname request =? "/health") && (method request =? "GET"))%string then
    (respond 200 (health_json (clock 0%nat)), env)
  else if ((pathname request =? "/") && (method request =? "GET"))%string then
    (respond 200 docs, env)
  else (respond 404 not_found, env).




(** The requests of the Go client, by the pathname of the parsed URL. For a
    passcode of letters and digits that pathname is the concatenation below;
    a text with dot segments, or with characters that the URL parser
    rewrites, is not the pathname of any request. *)
Definition register_request (passcode tunnel_url token : string) : Incoming :=
  {| method := "POST"; pathname := "/register";
     read_json := Props (Some passcode) (Some tunnel_url) (Some token) |}.

Definition lookup_request (passcode : string) : Incoming :=
  {| method := "GET"; pathname := "/lookup/" +:+ passcode;
     read_json := Throws "Unexpected end of JSON input" |}.

(** Characters that the URL parser leaves as they are in a path. *)
Definition unreserved (c : ascii) : bool :=
  let n := nat_of_ascii c in
  ((48 <=? n) && (n <=? 57) || (65 <=? n) && (n <=? 90) || (97 <=? n) && (n <=? 122)
   || (n =? 45) || (n =? 46) || (n =? 95) || (n =? 126))%nat.

Definition dot_segment (s : string) : bool := ((s =? ".") || (s =? ".."))%string.

(** A pathname as [new URL(request.url).pathname] gives it: the parser has
    resolved the dot segments, so none is left. Here: segments of
    unreserved characters, none of them "." or "..". *)
Definition settled_path (path : string) : bool :=
  forallb (fun c => unreserved c || Ascii.eqb c slash) (list_ascii_of_string path)
  && forallb (fun segment => negb (dot_segment segment)) (split slash path).

Definition no_slash (s : string) : Prop := ~ In slash (list_ascii_of_string s).

Example split_lookup_path :
  split slash "/lookup/ABC234/extra" = [""; "lookup"; "ABC234"; "extra"]%string.
Proof. reflexivity. Qed.

(** Clocks and a namespace for the examples. *)
Definition noon : nat -> Z := fun _ => 1700000000000.
Definition an_hour_later : nat -> Z := fun _ => 1700003600000.
Definition two_days_later : nat -> Z := fun _ => 1700172800000.

Definition day_old_session : KV :=
  snd (fetch noon ∅ (register_request "ABC234" "https://abc.lhr.life" "tok")).


(** *** Paths *)

Lemma split_segment (p rest : string) :
  no_slash p -> split slash (p +:+ String slash rest) = p :: split slash rest.
Proof.
  unfold no_slash. induction p as [|c p IH]; intros Hp; simpl.
  - reflexivity.
  - simpl in Hp. destruct (Ascii.eqb_spec c slash) as [->|Hc].
    + elim Hp. now left.
    + rewrite IH by (intros H; apply Hp; now right). reflexivity.
Qed.

Lemma split_last (p : string) : no_slash p -> split slash p = [p].
Proof.
  unfold no_slash. induction p as [|c p IH]; intros Hp; simpl.
  - reflexivity.
  - simpl in Hp. destruct (Ascii.eqb_spec c slash) as [->|Hc].
    + elim Hp. now left.
    + rewrite IH by (intros H; apply Hp; now right). reflexivity.
Qed.

Lemma split_nonempty (s : string) : split slash s <> [].
Proof.
  destruct s as [|c s]; simpl; [discriminate|].
  destruct (Ascii.eqb c slash); [discriminate|].
  destruct (split slash s); discriminate.
Qed.

(** The third segment of /lookup/<p> and of /lookup/<p>/<anything>. *)
Lemma lookup_segment (p : string) :
  no_slash p -> split slash ("/lookup/" +:+ p) !! 2%nat = Some p.
Proof.
  intros Hp.
  change ("/lookup/" +:+ p)%string
    with ("" +:+ String slash ("lookup" +:+ String slash p))%string.
  rewrite split_segment by (intros []).
  rewrite split_segment by (vm_compute; intuition discriminate).
  now rewrite split_last.
Qed.

Lemma lookup_segment_longer (p rest : string) :
  no_slash p ->
  split slash ("/lookup/" +:+ p +:+ String slash rest) !! 2%nat = Some p.
Proof.
  intros Hp.
  change ("/lookup/" +:+ p +:+ String slash rest)%string
    with ("" +:+ String slash ("lookup" +:+ String slash (p +:+ String slash rest)))%string.
  rewrite split_segment by (intros []).
  rewrite split_segment by (vm_compute; intuition discriminate).
  rewrite split_segment by exact Hp. reflexivity.
Qed.

Lemma valid_passcode_no_slash (p : string) :
  Session.passcodeRegex_test p = true -> no_slash p /\ p <> ""%string.
Proof.
  unfold Session.passcodeRegex_test. intros H.
  apply andb_true_iff in H as [Hlen Hall]. split.
  - intros Hin. rewrite forallb_forall in Hall.
    specialize (Hall slash Hin). vm_compute in Hall. discriminate.
  - intros ->. discriminate.
Qed.

(** *** The two routes of the Go client *)

Lemma fetch_register (clock : nat -> Z) (env : KV) (p u t : string) :
  fetch clock env (register_request p u t) =
  if ((p =? "") || (u =? "") || (t =? ""))%string then (respond 400 missing_fields, env)
  else if negb (Session.passcodeRegex_test p) then (respond 400 invalid_format, env)
  else (respond 200 (registered p),
        <[p := {| stored := {| tunnel_url := u; token := t; created_at := clock 0%nat;
                               expires_at := clock 1%nat + 86400000 |};
                  expirationTtl := 86400 |}]> env).
Proof. reflexivity. Qed.

Lemma fetch_register_props (clock : nat -> Z) (env : KV)
    (passcode tunnel_url token : option string) :
  fetch clock env {| method := "POST"; pathname := "/register";
                     read_json := Props passcode tunnel_url token |} =
  if falsy passcode || falsy tunnel_url || falsy token then
    (respond 400 missing_fields, env)
  else if negb (Session.passcodeRegex_test (default "" passcode)) then
    (respond 400 invalid_format, env)
  else
    (respond 200 (registered (default "" passcode)),
     <[default "" passcode :=
         {| stored := {| tunnel_url := default "" tunnel_url;
                         token := default "" token;
                         created_at := clock 0%nat;
                         expires_at := clock 1%nat + 86400000 |};
            expirationTtl := 86400 |}]> env).
Proof. reflexivity. Qed.

Lemma fetch_lookup_path (clock : nat -> Z) (env : KV) (path p : string) :
  HasPrefix path "/lookup/" = true ->
  split slash path !! 2%nat = Some p -> p <> ""%string ->
  fetch clock env {| method := "GET"; pathname := path;
                     read_json := Throws "Unexpected end of JSON input" |} =
  match env !! p with
  | None => (respond 404 (error_body "Invalid or expired passcode"), env)
  | Some entry =>
      if expires_at (stored entry) <? clock 0%nat then
        (respond 404 (error_body "Passcode has expired"), delete p env)
      else (respond 200 (session_json (stored entry)), env)
  end.
Proof.
  intros Hpre Hseg Hne. unfold fetch. cbn [method pathname read_json].
  assert (Hreg : (path =? "/register")%string = false).
  { destruct (String.eqb_spec path "/register") as [->|]; [|reflexivity].
    vm_compute in Hpre. discriminate. }
  rewrite Hreg, Hpre, Hseg. cbn.
  destruct (String.eqb_spec p "") as [|_]; [contradiction | reflexivity].
Qed.

Lemma fetch_lookup (clock : nat -> Z) (env : KV) (p : string) :
  no_slash p -> p <> ""%string ->
  fetch clock env (lookup_request p) =
  match env !! p with
  | None => (respond 404 (error_body "Invalid or expired passcode"), env)
  | Some entry =>
      if expires_at (stored entry) <? clock 0%nat then
        (respond 404 (error_body "Passcode has expired"), delete p env)
      else (respond 200 (session_json (stored entry)), env)
  end.
Proof.
  intros Hp Hne. apply fetch_lookup_path.
  - apply HasPrefix_app.
  - now apply lookup_segment.
  - exact Hne.
Qed.

(** *** Registration and lookup *)

Lemma accepted_registration (clock : nat -> Z) (env : KV) (p u t : string) :
  Session.passcodeRegex_test p = true -> u <> ""%string -> t <> ""%string ->
  fetch clock env (register_request p u t) =
  (respond 200 (registered p),
   <[p := {| stored := {| tunnel_url := u; token := t; created_at := clock 0%nat;
                          expires_at := clock 1%nat + 86400000 |};
             expirationTtl := 86400 |}]> env).
Proof.
  intros Hp Hu Ht. destruct (valid_passcode_no_slash p Hp) as [_ Hne].
  rewrite fetch_register, Hp.
  destruct (String.eqb_spec p "") as [|_]; [contradiction|].
  destruct (String.eqb_spec u "") as [|_]; [contradiction|].
  destruct (String.eqb_spec t "") as [|_]; [contradiction|].
  reflexivity.
Qed.

Lemma live_lookup (clock : nat -> Z) (env : KV) (p : string) (entry : KVEntry) :
  Session.passcodeRegex_test p = true ->
  env !! p = Some entry -> clock 0%nat <= expires_at (stored entry) ->
  fetch clock env (lookup_request p) = (respond 200 (session_json (stored entry)), env).
Proof.
  intros Hp He Hnow. destruct (valid_passcode_no_slash p Hp) as [Hslash Hne].
  rewrite (fetch_lookup clock env p Hslash Hne), He.
  destruct (Z.ltb_spec (expires_at (stored entry)) (clock 0%nat)); [lia | reflexivity].
Qed.

(** X1: a registration with a well-formed passcode and non-empty tunnel
    URL and token is answered 200, and a lookup of that passcode made no
    later than 24 hours after the registration is answered 200 with the
    registered tunnel URL and token and leaves the namespace as it is. *)
Theorem register_then_lookup (clock clock' : nat -> Z) (env : KV) (p u t : string) :
  Session.passcodeRegex_test p = true -> u <> ""%string -> t <> ""%string ->
  clock' 0%nat <= clock 1%nat + 86400000 ->
  let registration := fetch clock env (register_request p u t) in
  status (fst registration) = 200%nat /\
  fetch clock' (snd registration) (lookup_request p) =
  (respond 200 (session_json {| tunnel_url := u; token := t;
                                created_at := clock 0%nat;
                                expires_at := clock 1%nat + 86400000 |}),
   snd registration).
Proof.
  intros Hp Hu Ht Hnow. cbv zeta.
  rewrite (accepted_registration clock env p u t Hp Hu Ht). cbn [fst snd].
  split; [reflexivity|].
  now rewrite (live_lookup clock' _ p _ Hp (lookup_insert_eq _ _ _)).
Qed.

Lemma register_then_lookup_witness :
  fst (fetch an_hour_later
         (snd (fetch noon ∅ (register_request "ABC234" "https://abc.lhr.life" "tok")))
         (lookup_request "ABC234")) =
  respond 200 (session_json {| tunnel_url := "https://abc.lhr.life"; token := "tok";
                               created_at := 1700000000000;
                               expires_at := 1700086400000 |}).
Proof.
  destruct (register_then_lookup noon an_hour_later ∅ "ABC234" "https://abc.lhr.life"
              "tok") as [_ H]; [reflexivity | discriminate | discriminate | vm_compute; discriminate |].
  cbv zeta in H. rewrite H. reflexivity.
Defined.

(** X2: POST /register whose body is read stores a session exactly when
    passcode, tunnel URL and token are all present and non-empty and the
    passcode matches the regular expression; every other registration is
    answered 400 and leaves the namespace untouched. *)
Theorem registration_criterion (clock : nat -> Z) (env : KV)
    (passcode tunnel_url token : option string) :
  let request := {| method := "POST"; pathname := "/register";
                    read_json := Props passcode tunnel_url token |} in
  (status (fst (fetch clock env request)) = 200%nat <->
   exists p u t,
     passcode = Some p /\ tunnel_url = Some u /\ token = Some t /\
     u <> ""%string /\ t <> ""%string /\ Session.passcodeRegex_test p = true) /\
  (status (fst (fetch clock env request)) <> 200%nat ->
   status (fst (fetch clock env request)) = 400%nat /\
   snd (fetch clock env request) = env).
Proof.
  cbv zeta. rewrite fetch_register_props.
  destruct (falsy passcode || falsy tunnel_url || falsy token) eqn:Hf.
  - cbn [fst snd status respond].
    split; [split; [discriminate|] | intros _; split; reflexivity].
    intros (p & u & t & -> & -> & -> & Hu & Ht & Hre).
    destruct (valid_passcode_no_slash p Hre) as [_ Hp]. cbn [falsy] in Hf.
    destruct (String.eqb_spec p ""), (String.eqb_spec u ""), (String.eqb_spec t "");
      try contradiction. discriminate.
  - apply orb_false_iff in Hf as [Hf Ht]. apply orb_false_iff in Hf as [Hp Hu].
    destruct passcode as [p|], tunnel_url as [u|], token as [t|]; try discriminate.
    cbn [falsy] in *. cbv [default from_option id].
    destruct (Session.passcodeRegex_test p) eqn:Hre; cbn [negb fst snd status respond].
    + split; [split; [|reflexivity] | intros H; now elim H].
      intros _. exists p, u, t.
      destruct (String.eqb_spec u ""), (String.eqb_spec t ""); try discriminate.
      repeat split; assumption.
    + split; [split; [discriminate|] | intros _; split; reflexivity].
      intros (? & ? & ? & [= <-] & _ & _ & _ & _ & H). congruence.
Qed.

Lemma registration_criterion_witness :
  status (fst (fetch noon ∅ {| method := "POST"; pathname := "/register";
                               read_json := Props (Some "abc234"%string)
                                                  (Some "https://abc.lhr.life"%string)
                                                  (Some "tok"%string) |})) = 400%nat /\
  snd (fetch noon ∅ {| method := "POST"; pathname := "/register";
                       read_json := Props (Some "abc234"%string)
                                          (Some "https://abc.lhr.life"%string)
                                          (Some "tok"%string) |}) = ∅.
Proof.
  apply (registration_criterion noon ∅ (Some "abc234"%string)
           (Some "https://abc.lhr.life"%string) (Some "tok"%string)).
  vm_compute. discriminate.
Defined.

(** X3: a lookup is answered 200 only with a stored session whose expiry
    time has not passed; the lookup of a stored session whose expiry time
    has passed is answered 404, removes the session, and every later lookup
    of that passcode is answered 404 as for a passcode never registered. *)
Theorem lookup_expiry (clock clock' : nat -> Z) (env : KV) (p : string) :
  no_slash p -> p <> ""%string ->
  (forall d, fst (fetch clock env (lookup_request p)) = respond 200 d ->
     exists entry, env !! p = Some entry /\ d = session_json (stored entry) /\
                   clock 0%nat <= expires_at (stored entry)) /\
  (forall entry, env !! p = Some entry -> expires_at (stored entry) < clock 0%nat ->
     fetch clock env (lookup_request p)
     = (respond 404 (error_body "Passcode has expired"), delete p env) /\
     fetch clock' (delete p env) (lookup_request p)
     = (respond 404 (error_body "Invalid or expired passcode"), delete p env)).
Proof.
  intros Hp Hne. rewrite !(fetch_lookup _ _ p Hp Hne). split.
  - intros d. destruct (env !! p) as [entry|]; [|discriminate].
    destruct (Z.ltb_spec (expires_at (stored entry)) (clock 0%nat)); [discriminate|].
    cbn [fst]. intros [= <-]. now exists entry.
  - intros entry -> Hexp. rewrite lookup_delete_eq.
    destruct (Z.ltb_spec (expires_at (stored entry)) (clock 0%nat)); [now split | lia].
Qed.

Lemma lookup_expiry_witness :
  fetch two_days_later day_old_session (lookup_request "ABC234")
  = (respond 404 (error_body "Passcode has expired"), ∅).
Proof.
  destruct (lookup_expiry two_days_later noon day_old_session "ABC234") as [_ H];
    [vm_compute; intuition discriminate | discriminate |].
  destruct (H {| stored := {| tunnel_url := "https://abc.lhr.life"; token := "tok";
                              created_at := 1700000000000;
                              expires_at := 1700086400000 |};
                 expirationTtl := 86400 |}) as [H1 _];
    [vm_compute; reflexivity | vm_compute; reflexivity |].
  rewrite H1. reflexivity.
Defined.

(** X4: registering a passcode that is already registered replaces the
    stored session: the namespace is the one that the second registration
    alone would have produced, and the first tunnel URL and token are gone. *)
Theorem registration_overwrites (clock1 clock2 : nat -> Z) (env : KV)
    (p u1 t1 u2 t2 : string) :
  Session.passcodeRegex_test p = true -> u2 <> ""%string -> t2 <> ""%string ->
  snd (fetch clock2 (snd (fetch clock1 env (register_request p u1 t1)))
         (register_request p u2 t2))
  = snd (fetch clock2 env (register_request p u2 t2)).
Proof.
  intros Hp Hu Ht. destruct (valid_passcode_no_slash p Hp) as [_ Hne].
  rewrite !fetch_register, Hp.
  destruct (String.eqb_spec p "") as [|_]; [contradiction|].
  destruct (String.eqb_spec u2 "") as [|_]; [contradiction|].
  destruct (String.eqb_spec t2 "") as [|_]; [contradiction|].
  cbn [orb negb snd].
  destruct ((u1 =? "") || (t1 =? ""))%string; cbn [snd]; [reflexivity|].
  apply insert_insert_eq.
Qed.

Lemma registration_overwrites_witness :
  fst (fetch an_hour_later
         (snd (fetch an_hour_later day_old_session
                 (register_request "ABC234" "https://evil.lhr.life" "other")))
         (lookup_request "ABC234")) =
  respond 200 (session_json {| tunnel_url := "https://evil.lhr.life"; token := "other";
                               created_at := 1700003600000;
                               expires_at := 1700090000000 |}).
Proof.
  unfold day_old_session.
  rewrite (registration_overwrites noon an_hour_later ∅ "ABC234" "https://abc.lhr.life"
             "tok" "https://evil.lhr.life" "other" eq_refl);
    [|discriminate|discriminate].
  reflexivity.
Defined.

(** X5: a registration does not disturb the other passcodes: a lookup of a
    different passcode gets the same answer before and after it. *)
Theorem registration_is_local (clock clock' : nat -> Z) (env : KV) (p u t q : string) :
  no_slash q -> q <> p ->
  fst (fetch clock' (snd (fetch clock env (register_request p u t))) (lookup_request q))
  = fst (fetch clock' env (lookup_request q)).
Proof.
  intros Hq Hqp. rewrite fetch_register.
  destruct (_ || _ || _)%bool; cbn [snd]; [reflexivity|].
  destruct (negb _); cbn [snd]; [reflexivity|].
  destruct (String.eqb_spec q "") as [->|Hne]; [reflexivity|].
  rewrite !(fetch_lookup _ _ q Hq Hne), lookup_insert_ne by congruence.
  destruct (env !! q) as [entry|]; [|reflexivity].
  now destruct (expires_at (stored entry) <? clock' 0%nat).
Qed.

Lemma registration_is_local_witness :
  fst (fetch an_hour_later
         (snd (fetch an_hour_later day_old_session
                 (register_request "XYZ789" "https://xyz.lhr.life" "t2")))
         (lookup_request "ABC234"))
  = fst (fetch an_hour_later day_old_session (lookup_request "ABC234")).
Proof.
  apply (registration_is_local an_hour_later an_hour_later day_old_session
           "XYZ789" "https://xyz.lhr.life" "t2" "ABC234");
    [vm_compute; intuition discriminate | discriminate].
Defined.

(** X6: a lookup reads the passcode from the third segment of the
    pathname and ignores the segments after it: a GET request whose pathname
    (that of the parsed URL, without dot segments) is /lookup/<p>/<rest> is
    handled as GET /lookup/<p>. *)
Theorem lookup_ignores_extra_segments (clock : nat -> Z) (env : KV)
    (request : Incoming) (p rest : string) :
  method request = "GET"%string ->
  pathname request = ("/lookup/" +:+ p +:+ String slash rest)%string ->
  settled_path (pathname request) = true ->
  no_slash p ->
  fetch clock env request = fetch clock env (lookup_request p).
Proof.
  intros Hm Hpath _ Hp. unfold lookup_request, fetch. cbn [method pathname read_json].
  rewrite Hm, Hpath.
  assert (Hreg : forall x, (("/lookup/" +:+ x) =? "/register")%string = false)
    by reflexivity.
  rewrite !Hreg, !HasPrefix_app.
  now rewrite (lookup_segment_longer p rest Hp), (lookup_segment p Hp).
Qed.

Lemma lookup_ignores_extra_segments_witness :
  fetch an_hour_later day_old_session
    {| method := "GET"; pathname := "/lookup/ABC234/extra/segments";
       read_json := Throws "Unexpected end of JSON input" |}
  = fetch an_hour_later day_old_session (lookup_request "ABC234").
Proof.
  apply (lookup_ignores_extra_segments an_hour_later day_old_session _
           "ABC234" "extra/segments");
    [reflexivity | reflexivity | reflexivity | vm_compute; intuition discriminate].
Defined.





End Worker.

(** * cmd/quickstart/session.go: the token and the session *)
Module SessionToken.

Local Open Scope N_scope.

(** The alphabet of [base64.URLEncoding] (RFC 4648, section 5). *)
Definition encodeURL : string :=
  "ABCDEFGHIJKLMNOPQRSTUVWXYZabcdefghijklmnopqrstuvwxyz0123456789-_".

Definition StdPadding : ascii := "="%char.

(** [enc.encode[i]] *)
Definition encode_at (i : N) : ascii :=
  default StdPadding (String.get (N.to_nat i) encodeURL).

(** [base64.URLEncoding.EncodeToString] of encoding/base64: three bytes
    give four characters; a remainder of one or two bytes is padded. *)
Fixpoint EncodeToString (src : list ascii) : string :=
  match src with
  | [] => EmptyString
  | [b0] =>
      let val := N.shiftl (N_of_ascii b0) 16 in
      String (encode_at (N.land (N.shiftr val 18) 63))
        (String (encode_at (N.land (N.shiftr val 12) 63))
           (String StdPadding (String StdPadding EmptyString)))
  | [b0; b1] =>
      let val := N.lor (N.shiftl (N_of_ascii b0) 16) (N.shiftl (N_of_ascii b1) 8) in
      String (encode_at (N.land (N.shiftr val 18) 63))
        (String (encode_at (N.land (N.shiftr val 12) 63))
           (String (encode_at (N.land (N.shiftr val 6) 63))
              (String StdPadding EmptyString)))
  | b0 :: b1 :: b2 :: rest =>
      let val := N.lor (N.lor (N.shiftl (N_of_ascii b0) 16) (N.shiftl (N_of_ascii b1) 8))
                       (N_of_ascii b2) in
      String (encode_at (N.land (N.shiftr val 18) 63))
        (String (encode_at (N.land (N.shiftr val 12) 63))
           (String (encode_at (N.land (N.shiftr val 6) 63))
              (String (encode_at (N.land val 63)) (EncodeToString rest))))
  end.

Section Entropy.

Variable Source : Type.

(** [rand.Int(rand.Reader, max)], as for the passcode. *)
Variable rand_Int : Source -> Z -> option (Z * Source).

(** [rand.Read(b)] of crypto/rand for a buffer of [n] bytes: the byte
    written at each index of the buffer and the source afterwards, or
    [None] when it returns an error. *)
Variable rand_Read : Source -> nat -> option ((nat -> ascii) * Source).

(** [make([]byte, n)] filled by [rand.Read]. *)
Definition filled (n : nat) (bytes_at : nat -> ascii) : list ascii :=
  map bytes_at (seq 0 n).

(** A failed read panics. *)
Definition generateToken : Session.Rand Source string :=
  fun src =>
    match rand_Read src 32 with
    | None => None
    | Some (bytes_at, src') => Some (EncodeToString (filled 32 bytes_at), src')
    end.

Record Session := { Passcode : string; Token : string }.

(** The fields of the composite literal are evaluated in order: the
    passcode first, then the token. *)
Definition generateSession : Session.Rand Source Session :=
  fun src =>
    match Session.generatePasscode Source rand_Int src with
    | None => None
    | Some (passcode, src1) =>
        match generateToken src1 with
        | None => None
        | Some (token, src2) =>
            Some ({| Passcode := passcode; Token := token |}, src2)
        end
    end.

End Entropy.

(** A character of the URL-safe alphabet, or the padding. *)
Definition url_safe (c : ascii) : Prop :=
  In c (list_ascii_of_string encodeURL) \/ c = StdPadding.

(** A stand-in for [rand.Read], to run the generators: the byte at index
    [i] is derived from a counter. *)
Definition counter_rand_Read (src : Z) (n : nat) : option ((nat -> ascii) * Z) :=
  Some (fun i => ascii_of_nat (Z.to_nat ((37 * src + 11 * Z.of_nat i) mod 256)),
        (src + Z.of_nat n)%Z).

Example token_from_counter :
  generateToken Z counter_rand_Read 0%Z =
  Some ("AAsWISw3Qk1YY255hI-apbC7xtHc5_L9CBMeKTQ_SlU="%string, 32%Z).
Proof. vm_compute. reflexivity. Qed.

(** *** The encoding *)

Lemma length_filled (n : nat) (bytes_at : nat -> ascii) :
  length (filled n bytes_at) = n.
Proof. unfold filled. now rewrite length_map, length_seq. Qed.

Lemma EncodeToString_length_le (n : nat) (src : list ascii) :
  (length src <= n)%nat ->
  String.length (EncodeToString src) = (4 * ((length src + 2) / 3))%nat.
Proof.
  revert src. induction n as [|n IH]; intros src Hn.
  - destruct src; [reflexivity | simpl in Hn; lia].
  - destruct src as [|b0 [|b1 [|b2 rest]]]; try reflexivity.
    cbn [EncodeToString String.length length]. cbv zeta. cbn [String.length].
    rewrite IH by (simpl in Hn; lia).
    replace (S (S (S (length rest))) + 2)%nat with ((length rest + 2) + 1 * 3)%nat by lia.
    rewrite Nat.div_add by lia. lia.
Qed.

Lemma encode_at_safe (i : N) : In (encode_at (N.land i 63)) (list_ascii_of_string encodeURL).
Proof.
  pose proof (N.land_le_r i 63) as Hle. unfold encode_at.
  assert (Hn : (N.to_nat (N.land i 63) < 64)%nat) by lia.
  revert Hn. generalize (N.to_nat (N.land i 63)) as n. intros n Hn.
  do 64 (destruct n as [|n]; [vm_compute; tauto|]). lia.
Qed.

Lemma EncodeToString_safe_le (n : nat) (src : list ascii) :
  (length src <= n)%nat ->
  Forall url_safe (list_ascii_of_string (EncodeToString src)).
Proof.
  revert src. induction n as [|n IH]; intros src Hn.
  - destruct src; [constructor | simpl in Hn; lia].
  - destruct src as [|b0 [|b1 [|b2 rest]]]; cbn [EncodeToString list_ascii_of_string];
      cbv zeta; cbn [list_ascii_of_string];
      repeat (constructor; [first [left; apply encode_at_safe | now right]|]);
      try constructor.
    apply IH. simpl in Hn. lia.
Qed.

Example encode_foobar :
  EncodeToString (list_ascii_of_string "foobar") = "Zm9vYmFy"%string /\
  EncodeToString (list_ascii_of_string "fo") = "Zm8="%string /\
  EncodeToString (list_ascii_of_string "f") = "Zg=="%string /\
  EncodeToString [ascii_of_nat 251; ascii_of_nat 255] = "-_8="%string.
Proof. repeat split; reflexivity. Qed.

(** X9: the encoding of n bytes has 4 * ceil(n / 3) characters, all of the
    URL-safe alphabet or the padding; so every token that generateToken
    returns has 44 such characters, and generateToken returns whenever the
    read of the entropy source succeeds. *)
Theorem token_format (Source : Type)
    (rand_Read : Source -> nat -> option ((nat -> ascii) * Source)) (src : Source) :
  (forall bytes : list ascii,
      String.length (EncodeToString bytes) = (4 * ((length bytes + 2) / 3))%nat /\
      Forall url_safe (list_ascii_of_string (EncodeToString bytes))) /\
  (rand_Read src 32%nat <> None -> generateToken Source rand_Read src <> None) /\
  (forall token src', generateToken Source rand_Read src = Some (token, src') ->
     String.length token = 44%nat /\
     Forall url_safe (list_ascii_of_string token)).
Proof.
  split; [|split].
  - intros bytes. split.
    + now apply (EncodeToString_length_le (length bytes)).
    + now apply (EncodeToString_safe_le (length bytes)).
  - unfold generateToken. now destruct (rand_Read src 32%nat) as [[f src']|].
  - intros token src'. unfold generateToken.
    destruct (rand_Read src 32%nat) as [[f src1]|]; [|discriminate].
    pose proof (length_filled 32 f) as Hlen. revert Hlen.
    generalize (filled 32 f) as bytes. intros bytes Hlen [= <- _]. split.
    + rewrite (EncodeToString_length_le 32) by lia. now rewrite Hlen.
    + apply (EncodeToString_safe_le 32). lia.
Qed.

Lemma token_format_witness :
  String.length "AAsWISw3Qk1YY255hI-apbC7xtHc5_L9CBMeKTQ_SlU=" = 44%nat.
Proof.
  destruct (token_format Z counter_rand_Read 0%Z) as (_ & Hret & Hfmt).
  assert (Hsome : generateToken Z counter_rand_Read 0%Z <> None) by (apply Hret; discriminate).
  exact (proj1 (Hfmt _ _ token_from_counter)).
Defined.

(** X10: a session made by generateSession is accepted by the worker:
    registered with any non-empty tunnel URL it is answered 200, and a
    lookup of its passcode within the next 24 hours returns that tunnel URL
    and the token of the session. *)
Theorem generated_session_registers (Source : Type)
    (rand_Int : Source -> Z -> option (Z * Source))
    (rand_Read : Source -> nat -> option ((nat -> ascii) * Source))
    (src src' : Source) (session : Session)
    (clock clock' : nat -> Z) (env : Worker.KV) (tunnelURL : string) :
  generateSession Source rand_Int rand_Read src = Some (session, src') ->
  tunnelURL <> ""%string ->
  (clock' 0%nat <= clock 1%nat + 86400000)%Z ->
  let registration :=
    Worker.fetch clock env
      (Worker.register_request (Passcode session) tunnelURL (Token session)) in
  Worker.status (fst registration) = 200%nat /\
  fst (Worker.fetch clock' (snd registration) (Worker.lookup_request (Passcode session)))
  = Worker.respond 200
      (Worker.session_json {| Worker.tunnel_url := tunnelURL;
                              Worker.token := Token session;
                              Worker.created_at := clock 0%nat;
                              Worker.expires_at := (clock 1%nat + 86400000)%Z |}).
Proof.
  unfold generateSession. intros Hgen Hurl Hnow.
  destruct (Session.generatePasscode Source rand_Int src) as [[p src1]|] eqn:Hp;
    [|discriminate].
  destruct (generateToken Source rand_Read src1) as [[t src2]|] eqn:Ht; [|discriminate].
  injection Hgen as <- _. cbn [Passcode Token].
  assert (Hre : Session.passcodeRegex_test p = true).
  { unfold Session.generatePasscode, Session.bind, Session.ret in Hp.
    destruct (Session.fill Source rand_Int 6 src) as [[cs s1]|] eqn:Hfill; [|discriminate].
    injection Hp as <- _.
    destruct (Session.fill_sound _ _ _ _ _ _ Hfill) as [Hlen Hall].
    unfold Session.passcodeRegex_test.
    rewrite Session.length_string_of_list_ascii, Hlen, list_ascii_of_string_of_list_ascii.
    simpl. apply forallb_forall. intros c Hc. apply Session.in_class_In.
    rewrite Forall_forall in Hall. apply Hall. now apply list_elem_of_In. }
  assert (Htok : t <> ""%string).
  { unfold generateToken in Ht.
    destruct (rand_Read src1 32%nat) as [[f s1]|]; [|discriminate].
    pose proof (length_filled 32 f) as Hlen. revert Hlen Ht.
    generalize (filled 32 f) as bytes. intros bytes Hlen [= <- _] Hempty.
    apply (f_equal String.length) in Hempty.
    rewrite (EncodeToString_length_le 32), Hlen in Hempty by lia. discriminate. }
  cbv zeta. rewrite (Worker.accepted_registration clock env p tunnelURL t Hre Hurl Htok).
  cbn [fst snd]. split; [reflexivity|].
  now rewrite (Worker.live_lookup clock' _ p _ Hre (lookup_insert_eq _ _ _)).
Qed.

Lemma generated_session_registers_witness :
  generateSession Z Session.counter_rand_Int counter_rand_Read 0%Z =
  Some ({| Passcode := "DLT29G"; Token := "3un0_woVICs2QUxXYm14g46ZpK-6xdDb5vH8BxIdKDM=" |},
        38%Z) /\
  Worker.status
    (fst (Worker.fetch Worker.noon ∅
            (Worker.register_request "DLT29G" "https://abc.lhr.life"
               "3un0_woVICs2QUxXYm14g46ZpK-6xdDb5vH8BxIdKDM="))) = 200%nat.
Proof.
  assert (Hgen : generateSession Z Session.counter_rand_Int counter_rand_Read 0%Z =
                 Some ({| Passcode := "DLT29G";
                          Token := "3un0_woVICs2QUxXYm14g46ZpK-6xdDb5vH8BxIdKDM=" |},
                       38%Z)) by (vm_compute; reflexivity).
  split; [exact Hgen|].
  apply (generated_session_registers Z Session.counter_rand_Int counter_rand_Read 0%Z 38%Z
           _ Worker.noon Worker.an_hour_later ∅ "https://abc.lhr.life" Hgen);
    [discriminate | vm_compute; discriminate].
Defined.

End SessionToken.

(** * lib/tunnel: tunnel providers *)
Module Tunnel.

Local Open Scope list_scope.

(** [type TunnelProvider string] *)
Definition TunnelProvider := string.
Definition ProviderNgrok : TunnelProvider := "ngrok".
Definition ProviderBore : TunnelProvider := "bore".
Definition ProviderLocal : TunnelProvider := "localhost.run".

(** *** The regular expressions *)

(** The class [[a-zA-Z0-9\-]]. *)
Definition label_char (c : ascii) : bool :=
  existsb (Ascii.eqb c)
    (list_ascii_of_string
       "abcdefghijklmnopqrstuvwxyzABCDEFGHIJKLMNOPQRSTUVWXYZ0123456789-").

(** [s] without the literal [lit] in front of it, when it is there. *)
Fixpoint strip (lit s : string) : option string :=
  match lit, s with
  | EmptyString, _ => Some s
  | String a lit', String b s' => if Ascii.eqb a b then strip lit' s' else None
  | String _ _, EmptyString => None
  end.

(** The longest run of label characters at the front of [s], and the rest. *)
Fixpoint span (s : string) : string * string :=
  match s with
  | EmptyString => (EmptyString, EmptyString)
  | String c s' =>
      if label_char c then let '(run, rest) := span s' in (String c run, rest)
      else (EmptyString, s)
  end.

(** The expressions of this package all have the shape
    [<before> https://[a-zA-Z0-9\-]+ <domain>], with one or several literal
    domains as alternatives and, in some, a capture group around the URL. *)
Record Pattern := {
  before : string;          (* literal text in front of the URL *)
  domains : list string;    (* the literal alternatives after the label *)
  captures : bool           (* the URL is a capture group *)
}.

(** The first of the literals that [s] begins with. *)
Fixpoint first_domain (ds : list string) (s : string) : option string :=
  match ds with
  | [] => None
  | d :: ds' => match strip d s with
                | Some _ => Some d
                | None => first_domain ds' s
                end
  end.

(** A match that begins at the first character of [s]: the text of the
    whole match and the URL in it. The label is the longest run of label
    characters: every domain begins with a dot, which is no label character,
    so no shorter run can be followed by a domain. *)
Definition match_here (p : Pattern) (s : string) : option (string * string) :=
  match strip (before p) s with
  | None => None
  | Some s1 =>
      match strip "https://" s1 with
      | None => None
      | Some s2 =>
          let '(label, s3) := span s2 in
          if (label =? "")%string then None
          else match first_domain (domains p) s3 with
               | None => None
               | Some d =>
                   Some (before p +:+ "https://" +:+ label +:+ d,
                         "https://" +:+ label +:+ d)
               end
      end
  end.

(** The leftmost match in [s]. *)
Fixpoint find (p : Pattern) (s : string) : option (string * string) :=
  match match_here p s with
  | Some m => Some m
  | None => match s with
            | EmptyString => None
            | String _ s' => find p s'
            end
  end.

(** [regex.FindString(line)]: the text of the leftmost match, or the empty
    string. *)
Definition FindString (p : Pattern) (line : string) : string :=
  match find p line with
  | Some (whole, _) => whole
  | None => EmptyString
  end.

(** [regex.FindStringSubmatch(line)]: the whole match followed by the
    capture group when the expression has one, or nil. *)
Definition FindStringSubmatch (p : Pattern) (line : string) : option (list string) :=
  match find p line with
  | Some (whole, url) => Some (if captures p then [whole; url] else [whole])
  | None => None
  end.

(** [strings.TrimPrefix] *)
Definition TrimPrefix (s prefix : string) : string :=
  match strip prefix s with
  | Some rest => rest
  | None => s
  end.

Definition ngrokRegex : Pattern :=
  {| before := "url="; domains := [".ngrok.io"%string]; captures := false |}.

Definition boreRegex : Pattern :=
  {| before := "listening at "; domains := [".bore.pub"%string]; captures := false |}.

Definition localhostRegexes : list Pattern :=
  [ {| before := ""; domains := [".lhr.life"%string]; captures := false |};
    {| before := ""; domains := [".localhost.run"%string]; captures := false |};
    {| before := "tunneled with tls termination, "; domains := [".lhr.life"%string];
       captures := true |};
    {| before := "tunneled with tls termination, "; domains := [".localhost.run"%string];
       captures := true |};
    {| before := "your url is: "; domains := [".lhr.life"; ".localhost.run"]%string;
       captures := true |} ].

(** *** Reading the output of a provider *)

(** What one turn of the [for { select { ... } }] loop meets: the timer has
    fired, the context is done, or (the default case) the scanner delivers a
    line, reports the end of the output, or reports an error. *)
Inductive Tick :=
| TimerFired
| Cancelled (err : string)
| Line (text : string)
| EndOfOutput
| ScanFailed (err : string).

(** The result of a call: a URL, an error, or no return within the turns
    observed. *)
Inductive Result :=
| Url (u : string)
| Failure (err : string)
| Pending.

(** The loop of [parseNgrokOutput] and [parseBoreOutput], which differ in
    the name of the provider, the expression and the prefix trimmed. *)
Fixpoint parseOutput (name : string) (p : Pattern) (ticks : list Tick) : Result :=
  match ticks with
  | [] => Pending
  | TimerFired :: _ => Failure ("timeout waiting for " +:+ name +:+ " URL")
  | Cancelled err :: _ => Failure err
  | ScanFailed err :: _ => Failure ("error reading " +:+ name +:+ " output: " +:+ err)
  | EndOfOutput :: rest => parseOutput name p rest          (* continue *)
  | Line line :: rest =>
      let m := FindString p line in
      if negb (m =? "")%string then Url (TrimPrefix m (before p))
      else parseOutput name p rest
  end.

Definition parseNgrokOutput : list Tick -> Result := parseOutput "ngrok" ngrokRegex.
Definition parseBoreOutput : list Tick -> Result := parseOutput "bore" boreRegex.

(** The inner loop of [parseLocalhostOutput] over the expressions. *)
Fixpoint try_regexes (ps : list Pattern) (line : string) : option string :=
  match ps with
  | [] => None
  | regex :: ps' =>
      match FindStringSubmatch regex line with
      | Some matches =>
          if (1 <? length matches)%nat then matches !! 1%nat   (* captured group *)
          else matches !! 0%nat                                 (* full match *)
      | None => try_regexes ps' line
      end
  end.

Fixpoint parseLocalhostOutput (ticks : list Tick) : Result :=
  match ticks with
  | [] => Pending
  | TimerFired :: _ => Failure "timeout waiting for localhost.run URL"
  | Cancelled err :: _ => Failure err
  | ScanFailed err :: _ => Failure ("error reading localhost.run output: " +:+ err)
  | EndOfOutput :: rest => parseLocalhostOutput rest
  | Line line :: rest =>
      match try_regexes localhostRegexes line with
      | Some url => Url url
      | None => parseLocalhostOutput rest
      end
  end.

(** *** Starting a provider *)

(** The machine the client runs on, by the name of the binary. *)
Record World := {
  LookPath : string -> bool;                 (* exec.LookPath finds the binary *)
  StdoutPipe : string -> option string;      (* the error of cmd.StdoutPipe, if any *)
  Start : string -> option string;           (* the error of cmd.Start, if any *)
  stdout : string -> list Tick               (* what the parse loop meets *)
}.

(** What a call does to processes and contexts. *)
Inductive Effect :=
| Started (binary : string) (args : list string)
| Killed (binary : string)
| ContextCancelled.

(** The common body of [connectNgrok], [connectBore], [connectLocalhost]:
    they differ in the binary, its arguments, the name in the messages and
    the parse function. *)
Definition connectWith (w : World) (binary name : string) (args : list string)
    (parse : list Tick -> Result) : Result * list Effect :=
  if negb (LookPath w binary) then (Failure (binary +:+ " not found in PATH"), [])
  else
    match StdoutPipe w binary with
    | Some err => (Failure ("failed to get stdout pipe: " +:+ err), [])
    | None =>
        match Start w binary with
        | Some err => (Failure ("failed to start " +:+ name +:+ ": " +:+ err), [])
        | None =>
            match parse (stdout w binary) with
            | Url publicURL => (Url publicURL, [Started binary args])
            | Failure err => (Failure err, [Started binary args; Killed binary])
            | Pending => (Pending, [Started binary args])
            end
        end
    end.

Definition connectNgrok (w : World) (localPort : Z) : Result * list Effect :=
  connectWith w "ngrok" "ngrok" ["http"; pretty localPort; "--log"; "stdout"]%string
    parseNgrokOutput.

Definition connectBore (w : World) (localPort : Z) : Result * list Effect :=
  connectWith w "bore" "bore" ["local"; pretty localPort; "--to"; "bore.pub"]%string
    parseBoreOutput.

Definition connectLocalhost (w : World) (localPort : Z) : Result * list Effect :=
  connectWith w "ssh" "localhost.run"
    ["-o"; "StrictHostKeyChecking=no"; "-o"; "ServerAliveInterval=60"; "-R";
     "80:localhost:" +:+ pretty localPort; "localhost.run"]%string
    parseLocalhostOutput.

Definition connectWithProvider (w : World) (provider : TunnelProvider) (localPort : Z)
  : Result * list Effect :=
  if (provider =? ProviderNgrok)%string then connectNgrok w localPort
  else if (provider =? ProviderBore)%string then connectBore w localPort
  else if (provider =? ProviderLocal)%string then connectLocalhost w localPort
  else (Failure ("unsupported tunnel provider: " +:+ provider), [ContextCancelled]).

(** The loop of [Connect] over the providers that remain. *)
Fixpoint connect_from (w : World) (providers : list TunnelProvider) (localPort : Z)
  : Result * list Effect :=
  match providers with
  | [] => (Failure "all tunnel providers failed", [])
  | provider :: rest =>
      match connectWithProvider w provider localPort with
      | (Url publicURL, effects) => (Url publicURL, effects)
      | (Pending, effects) => (Pending, effects)
      | (Failure _, effects) =>
          let '(outcome, later) := connect_from w rest localPort in
          (outcome, effects ++ later)
      end
  end.

Definition Connect (w : World) (localPort : Z) : Result * list Effect :=
  connect_from w [ProviderLocal; ProviderBore; ProviderNgrok] localPort.

Definition CheckAvailableProviders (w : World) : list TunnelProvider :=
  (if LookPath w "ngrok" then [ProviderNgrok] else [])
  ++ (if LookPath w "bore" then [ProviderBore] else [])
  ++ (if LookPath w "ssh" then [ProviderLocal] else []).

(** The processes left running by a sequence of effects, given those
    running before it. *)
Definition after_effect (live : list string) (e : Effect) : list string :=
  match e with
  | Started binary _ => live ++ [binary]
  | Killed binary => List.filter (fun b => negb (b =? binary)%string) live
  | ContextCancelled => live
  end.

Definition running (effects : list Effect) : list string :=
  fold_left after_effect effects [].

(** A URL that the expressions accept: https, one non-empty label of
    letters, digits and hyphens, and one of the provider domains. *)
Definition tunnel_url (u : string) : Prop :=
  exists label domain,
    u = ("https://" +:+ label +:+ domain)%string /\
    label <> ""%string /\
    forallb label_char (list_ascii_of_string label) = true /\
    In domain [".lhr.life"; ".localhost.run"; ".bore.pub"; ".ngrok.io"]%string.

(** A machine with ssh only, whose tunnel prints its URL on the third line. *)
Definition ssh_only : World :=
  {| LookPath := fun b => (b =? "ssh")%string;
     StdoutPipe := fun _ => None;
     Start := fun _ => None;
     stdout := fun _ =>
       [Line "Welcome to localhost.run!"; Line "";
        Line "abc-1.lhr.life tunneled with tls termination, https://abc-1.lhr.life"] |}.

(** A machine with ssh and bore, where the ssh tunnel times out. *)
Definition ssh_times_out : World :=
  {| LookPath := fun b => (b =? "ssh")%string || (b =? "bore")%string;
     StdoutPipe := fun _ => None;
     Start := fun _ => None;
     stdout := fun b =>
       if (b =? "ssh")%string then [Line "connecting"; EndOfOutput; TimerFired]
       else [Line "listening at https://x9.bore.pub"] |}.

Example connect_ssh_only :
  Connect ssh_only 3284 =
  (Url "https://abc-1.lhr.life",
   [Started "ssh" ["-o"; "StrictHostKeyChecking=no"; "-o"; "ServerAliveInterval=60";
                   "-R"; "80:localhost:3284"; "localhost.run"]%string]).
Proof. vm_compute. reflexivity. Qed.

Example connect_falls_back :
  Connect ssh_times_out 3284 =
  (Url "https://x9.bore.pub",
   [Started "ssh" ["-o"; "StrictHostKeyChecking=no"; "-o"; "ServerAliveInterval=60";
                   "-R"; "80:localhost:3284"; "localhost.run"]%string;
    Killed "ssh";
    Started "bore" ["local"; "3284"; "--to"; "bore.pub"]%string]).
Proof. vm_compute. reflexivity. Qed.

(** The URL of a match. *)
Definition url_of (p : Pattern) (u : string) : Prop :=
  exists label domain,
    u = ("https://" +:+ label +:+ domain)%string /\
    label <> ""%string /\
    forallb label_char (list_ascii_of_string label) = true /\
    In domain (domains p).

(** [u] occurs in [line]. *)
Definition occurs_in (u line : string) : Prop :=
  exists a b, line = (a +:+ u +:+ b)%string.

(** *** What a match looks like *)

Lemma append_assoc (a b c : string) : ((a +:+ b) +:+ c = a +:+ (b +:+ c))%string.
Proof. induction a as [|x a IH]; simpl; [reflexivity | now rewrite IH]. Qed.

Lemma append_nil_r (a : string) : (a +:+ "" = a)%string.
Proof. induction a as [|x a IH]; simpl; [reflexivity | now rewrite IH]. Qed.

Lemma strip_Some (lit s rest : string) :
  strip lit s = Some rest <-> s = (lit +:+ rest)%string.
Proof.
  revert s. induction lit as [|a lit IH]; intros s; simpl.
  - split; [now intros [= ->] | now intros ->].
  - destruct s as [|b s]; [split; discriminate|].
    destruct (Ascii.eqb_spec a b) as [->|Hne].
    + rewrite IH. split; [now intros -> | now intros [= ->]].
    + split; [discriminate | intros [= -> _]; now elim Hne].
Qed.

Lemma strip_app (lit rest : string) : strip lit (lit +:+ rest) = Some rest.
Proof. now apply strip_Some. Qed.

Lemma strip_slice (lit s rest : string) :
  strip lit s = Some rest -> rest = slice_from (String.length lit) s.
Proof. intros H. apply strip_Some in H as ->. now rewrite slice_from_app. Qed.

Lemma span_spec (s run rest : string) :
  span s = (run, rest) ->
  s = (run +:+ rest)%string /\ forallb label_char (list_ascii_of_string run) = true.
Proof.
  revert run rest. induction s as [|c s IH]; intros run rest; simpl.
  - now intros [= <- <-].
  - destruct (label_char c) eqn:Hc.
    + destruct (span s) as [run' rest'] eqn:Hs. intros [= <- <-].
      destruct (IH _ _ eq_refl) as [-> Hall]. simpl. now rewrite Hc.
    + now intros [= <- <-].
Qed.

Lemma first_domain_In (ds : list string) (s d : string) :
  first_domain ds s = Some d -> In d ds /\ exists rest, s = (d +:+ rest)%string.
Proof.
  induction ds as [|d0 ds IH]; simpl; [discriminate|].
  destruct (strip d0 s) as [rest|] eqn:Hd.
  - intros [= <-]. split; [now left|]. exists rest. now apply strip_Some.
  - intros H. destruct (IH H) as [Hin Hrest]. split; [now right | exact Hrest].
Qed.

Lemma match_here_shape (p : Pattern) (s whole url : string) :
  match_here p s = Some (whole, url) ->
  whole = (before p +:+ url)%string /\ url_of p url /\
  exists rest, s = (whole +:+ rest)%string.
Proof.
  unfold match_here.
  destruct (strip (before p) s) as [s1|] eqn:H1; [|discriminate].
  destruct (strip "https://" s1) as [s2|] eqn:H2; [|discriminate].
  destruct (span s2) as [label s3] eqn:H3.
  destruct (String.eqb_spec label "") as [|Hne]; [discriminate|].
  destruct (first_domain (domains p) s3) as [d|] eqn:H4; [|discriminate].
  intros [= <- <-].
  apply strip_Some in H1, H2. destruct (span_spec _ _ _ H3) as [Hs2 Hall].
  destruct (first_domain_In _ _ _ H4) as [Hin [rest Hs3]].
  split; [reflexivity|]. split.
  - now exists label, d.
  - exists rest. subst. rewrite append_assoc. simpl. now rewrite append_assoc.
Qed.

Lemma find_position (p : Pattern) (s : string) (m : string * string) :
  find p s = Some m -> exists n, match_here p (slice_from n s) = Some m.
Proof.
  induction s as [|c s IH]; cbn [find].
  - destruct (match_here p "") eqn:H; [|discriminate].
    intros [= <-]. now exists 0%nat.
  - destruct (match_here p (String c s)) eqn:H.
    + intros [= <-]. now exists 0%nat.
    + intros Hf. destruct (IH Hf) as [n Hn]. now exists (S n).
Qed.

Lemma find_complete (p : Pattern) (s : string) (n : nat) (m : string * string) :
  match_here p (slice_from n s) = Some m -> is_Some (find p s).
Proof.
  revert n. induction s as [|c s IH]; intros n; cbn [find].
  - destruct n; simpl; intros ->; eauto.
  - destruct n as [|n]; simpl.
    + intros ->. eauto.
    + intros H. destruct (match_here p (String c s)); [eauto | exact (IH n H)].
Qed.

Lemma find_shape (p : Pattern) (line whole url : string) :
  find p line = Some (whole, url) ->
  whole = (before p +:+ url)%string /\ url_of p url.
Proof.
  intros H. destruct (find_position _ _ _ H) as [n Hn].
  destruct (match_here_shape _ _ _ _ Hn) as (Hw & Hu & _). now split.
Qed.

Lemma url_of_nonempty (p : Pattern) (u : string) : url_of p u -> u <> ""%string.
Proof. intros (label & d & -> & _). discriminate. Qed.

Lemma slice_from_split (n : nat) (s : string) :
  exists a, s = (a +:+ slice_from n s)%string.
Proof.
  revert s. induction n as [|n IH]; intros s.
  - now exists ""%string.
  - destruct s as [|c s]; [now exists ""%string|].
    destruct (IH s) as [a Ha]. exists (String c a). simpl. now rewrite <- Ha.
Qed.

Lemma find_occurs (p : Pattern) (line whole url : string) :
  find p line = Some (whole, url) -> occurs_in url line.
Proof.
  intros H. destruct (find_position _ _ _ H) as [n Hn].
  destruct (match_here_shape _ _ _ _ Hn) as (-> & _ & rest & Hrest).
  destruct (slice_from_split n line) as [a Ha].
  exists (a +:+ before p)%string, rest.
  rewrite Ha at 1. rewrite Hrest. now rewrite !append_assoc.
Qed.

Lemma parseOutput_url (name : string) (p : Pattern) (ticks : list Tick) (u : string) :
  parseOutput name p ticks = Url u ->
  url_of p u /\ exists line, In (Line line) ticks /\ occurs_in u line.
Proof.
  induction ticks as [|t ticks IH]; simpl; [discriminate|].
  destruct t as [| err | line | | err]; try discriminate.
  - unfold FindString. destruct (find p line) as [[whole url]|] eqn:Hf.
    + destruct (find_shape _ _ _ _ Hf) as [-> Hu].
      destruct (String.eqb_spec (before p +:+ url) "") as [He|_]; cbn [negb].
      * intros H. destruct (IH H) as (Hurl & l & Hl & Ho). split; [exact Hurl|].
        exists l. split; [now right | exact Ho].
      * unfold TrimPrefix. rewrite strip_app. intros [= <-]. split; [exact Hu|].
        exists line. split; [now left | exact (find_occurs _ _ _ _ Hf)].
    + simpl. intros H. destruct (IH H) as (Hurl & l & Hl & Ho). split; [exact Hurl|].
      exists l. split; [now right | exact Ho].
  - intros H. destruct (IH H) as (Hurl & l & Hl & Ho). split; [exact Hurl|].
    exists l. split; [now right | exact Ho].
Qed.

Lemma try_regexes_url (ps : list Pattern) (line u : string) :
  Forall (fun p => captures p = false -> before p = ""%string) ps ->
  try_regexes ps line = Some u ->
  exists p, In p ps /\ url_of p u /\ occurs_in u line.
Proof.
  induction ps as [|p ps IH]; simpl; [discriminate|].
  intros Hall. inversion Hall as [|? ? Hp Hps]; subst.
  unfold FindStringSubmatch. destruct (find p line) as [[whole url]|] eqn:Hf.
  - destruct (find_shape _ _ _ _ Hf) as [-> Hu].
    destruct (captures p) eqn:Hc; simpl; intros [= <-].
    + exists p. split; [now left|]. split; [exact Hu | exact (find_occurs _ _ _ _ Hf)].
    + rewrite (Hp eq_refl) in *. simpl. exists p. split; [now left|].
      split; [exact Hu | exact (find_occurs _ _ _ _ Hf)].
  - intros H. destruct (IH Hps H) as (q & Hq & Hu & Ho).
    exists q. split; [now right | now split].
Qed.

Lemma parseLocalhostOutput_url (ticks : list Tick) (u : string) :
  parseLocalhostOutput ticks = Url u ->
  (exists p, In p localhostRegexes /\ url_of p u) /\
  exists line, In (Line line) ticks /\ occurs_in u line.
Proof.
  induction ticks as [|t ticks IH]; cbn [parseLocalhostOutput]; [discriminate|].
  destruct t as [| err | line | | err]; try discriminate.
  - destruct (try_regexes localhostRegexes line) as [url|] eqn:Ht.
    + intros [= <-].
      destruct (try_regexes_url localhostRegexes line url) as (p & Hp & Hu & Ho);
        [repeat constructor; discriminate | exact Ht |].
      split; [now exists p|]. exists line. split; [now left | exact Ho].
    + intros H. destruct (IH H) as (Hp & l & Hl & Ho). split; [exact Hp|].
      exists l. split; [now right | exact Ho].
  - intros H. destruct (IH H) as (Hp & l & Hl & Ho). split; [exact Hp|].
    exists l. split; [now right | exact Ho].
Qed.

(** X11: a URL returned by parseNgrokOutput, parseBoreOutput or
    parseLocalhostOutput occurs in a line of the provider's output and has
    the form https://<label><domain>, with a non-empty label of letters,
    digits and hyphens and the domain of that provider (.ngrok.io,
    .bore.pub, and .lhr.life or .localhost.run). *)
Theorem parsed_url_wellformed (ticks : list Tick) (u : string) :
  (parseNgrokOutput ticks = Url u ->
   url_of ngrokRegex u /\ exists line, In (Line line) ticks /\ occurs_in u line) /\
  (parseBoreOutput ticks = Url u ->
   url_of boreRegex u /\ exists line, In (Line line) ticks /\ occurs_in u line) /\
  (parseLocalhostOutput ticks = Url u ->
   url_of {| before := ""; domains := [".lhr.life"; ".localhost.run"]%string;
             captures := false |} u /\
   exists line, In (Line line) ticks /\ occurs_in u line).
Proof.
  split; [apply parseOutput_url | split; [apply parseOutput_url |]].
  intros H. destruct (parseLocalhostOutput_url ticks u H) as [(p & Hp & Hu) Hline].
  split; [|exact Hline].
  destruct Hu as (label & d & -> & Hne & Hall & Hd).
  exists label, d. repeat split; try assumption.
  simpl in Hp. cbn [domains].
  destruct Hp as [<-|[<-|[<-|[<-|[<-|[]]]]]]; simpl in *; tauto.
Qed.

Lemma parsed_url_wellformed_witness :
  url_of ngrokRegex "https://ab-12.ngrok.io".
Proof.
  apply (parsed_url_wellformed
           [Line "t=2024 lvl=info msg=starting"; EndOfOutput;
            Line "t=2024 lvl=info msg=tunnel url=https://ab-12.ngrok.io addr=x"]
           "https://ab-12.ngrok.io").
  reflexivity.
Defined.

(** *** The expressions with capture groups *)

Lemma slice_from_add (a b : nat) (s : string) :
  slice_from a (slice_from b s) = slice_from (b + a) s.
Proof.
  revert s. induction b as [|b IH]; intros s; simpl; [reflexivity|].
  destruct s as [|c s]; [now destruct a | apply IH].
Qed.

(** Where an expression with text in front matches, the plain expression
    for the domain it ends with matches as well. *)
Lemma plain_matches_too (p : Pattern) (line : string) (m : string * string) :
  find p line = Some m ->
  exists d, In d (domains p) /\
            is_Some (find {| before := ""; domains := [d]; captures := false |} line).
Proof.
  intros H. destruct (find_position _ _ _ H) as [n Hn].
  unfold match_here in Hn.
  destruct (strip (before p) (slice_from n line)) as [s1|] eqn:H1; [|discriminate].
  destruct (strip "https://" s1) as [s2|] eqn:H2; [|discriminate].
  destruct (span s2) as [label s3] eqn:H3.
  destruct (label =? "")%string eqn:Hl; [discriminate|].
  destruct (first_domain (domains p) s3) as [d|] eqn:H4; [|discriminate].
  destruct (first_domain_In _ _ _ H4) as [Hin [rest Hrest]].
  exists d. split; [exact Hin|].
  apply (find_complete _ line (n + String.length (before p))
           ("https://" +:+ label +:+ d, "https://" +:+ label +:+ d)%string).
  rewrite <- slice_from_add, <- (strip_slice _ _ _ H1).
  unfold match_here. cbn [before domains].
  change (strip "" s1) with (Some s1). cbv iota beta.
  rewrite H2, H3, Hl. cbn [first_domain]. now rewrite Hrest, strip_app.
Qed.

(** X12: in parseLocalhostOutput the three expressions with a capture
    group never decide the result: a line that one of them matches is
    matched by one of the first two expressions, which are tried first, so
    the URL returned is always the whole match of one of those two. *)
Theorem capture_patterns_never_decide (line : string) :
  try_regexes localhostRegexes line = try_regexes (take 2 localhostRegexes) line.
Proof.
  cbn [localhostRegexes take try_regexes]. unfold FindStringSubmatch.
  destruct (find {| before := ""; domains := [".lhr.life"%string]; captures := false |}
              line) as [[w1 u1]|] eqn:H1; [reflexivity|].
  destruct (find {| before := ""; domains := [".localhost.run"%string];
                    captures := false |} line) as [[w2 u2]|] eqn:H2; [reflexivity|].
  assert (Hnone : forall p, Forall (fun d => d = ".lhr.life"%string \/
                                             d = ".localhost.run"%string) (domains p) ->
                            find p line = None).
  { intros p Hd. destruct (find p line) as [m|] eqn:Hf; [|reflexivity].
    destruct (plain_matches_too p line m Hf) as (d & Hin & Hsome).
    rewrite Forall_forall in Hd.
    destruct (Hd d (proj2 (list_elem_of_In _ _) Hin)) as [->| ->];
      [rewrite H1 in Hsome | rewrite H2 in Hsome]; now destruct Hsome. }
  rewrite !Hnone; [reflexivity | | |]; cbn [domains]; repeat constructor; tauto.
Qed.

(** *** Connect *)

Lemma connectWith_cases (w : World) (binary name : string) (args : list string)
    (parse : list Tick -> Result) :
  (LookPath w binary = false /\
   connectWith w binary name args parse = (Failure (binary +:+ " not found in PATH"), [])) \/
  (LookPath w binary = true /\
   ((exists err, connectWith w binary name args parse = (Failure err, [])) \/
    (exists u, parse (stdout w binary) = Url u /\
               connectWith w binary name args parse = (Url u, [Started binary args])) \/
    (exists err, connectWith w binary name args parse
                 = (Failure err, [Started binary args; Killed binary])) \/
    connectWith w binary name args parse = (Pending, [Started binary args]))).
Proof.
  unfold connectWith. destruct (LookPath w binary); cbn [negb]; [right | left; now split].
  split; [reflexivity|].
  destruct (StdoutPipe w binary) as [e|]; [left; eexists; reflexivity|].
  destruct (Start w binary) as [e|]; [left; eexists; reflexivity|].
  destruct (parse (stdout w binary)) as [u|e|].
  - right. left. now exists u.
  - right. right. left. now exists e.
  - right. right. right. reflexivity.
Qed.

Lemma connectWithProvider_known (w : World) (localPort : Z) :
  connectWithProvider w ProviderLocal localPort = connectLocalhost w localPort /\
  connectWithProvider w ProviderBore localPort = connectBore w localPort /\
  connectWithProvider w ProviderNgrok localPort = connectNgrok w localPort.
Proof. repeat split. Qed.

Lemma connect_order_eq (w : World) (localPort : Z) :
  fst (Connect w localPort) =
  match fst (connectLocalhost w localPort) with
  | Failure _ =>
      match fst (connectBore w localPort) with
      | Failure _ =>
          match fst (connectNgrok w localPort) with
          | Failure _ => Failure "all tunnel providers failed"
          | other => other
          end
      | other => other
      end
  | other => other
  end.
Proof.
  unfold Connect. cbn [connect_from].
  destruct (connectWithProvider_known w localPort) as (-> & -> & ->).
  destruct (connectLocalhost w localPort) as [[u|e|] ef1]; try reflexivity.
  destruct (connectBore w localPort) as [[u|e2|] ef2]; try reflexivity.
  destruct (connectNgrok w localPort) as [[u|e3|] ef3]; reflexivity.
Qed.

(** X13: Connect tries localhost.run, then bore, then ngrok, and returns
    the URL of the first provider that does not fail (the errors of the
    providers tried before are dropped; when all three fail the error is
    "all tunnel providers failed"). The process of every provider that
    failed after it was started has been killed: when Connect returns a URL
    exactly one tunnel process is left running, and when it fails none is. *)
Theorem connect_first_success (w : World) (localPort : Z) :
  fst (Connect w localPort) =
  match fst (connectLocalhost w localPort) with
  | Failure _ =>
      match fst (connectBore w localPort) with
      | Failure _ =>
          match fst (connectNgrok w localPort) with
          | Failure _ => Failure "all tunnel providers failed"
          | other => other
          end
      | other => other
      end
  | other => other
  end /\
  match fst (Connect w localPort) with
  | Url _ | Pending => exists binary, running (snd (Connect w localPort)) = [binary]
  | Failure _ => running (snd (Connect w localPort)) = []
  end.
Proof.
  split; [apply connect_order_eq|].
  unfold Connect. cbn [connect_from].
  destruct (connectWithProvider_known w localPort) as (-> & -> & ->).
  unfold connectLocalhost, connectBore, connectNgrok.
  destruct (connectWith_cases w "ssh" "localhost.run"
              ["-o"; "StrictHostKeyChecking=no"; "-o"; "ServerAliveInterval=60"; "-R";
               "80:localhost:" +:+ pretty localPort; "localhost.run"]%string
              parseLocalhostOutput)
    as [[_ ->]|[_ [[e ->]|[[u [_ ->]]|[[e ->]| ->]]]]];
    try (cbn; eexists; reflexivity);
    (destruct (connectWith_cases w "bore" "bore"
                 ["local"; pretty localPort; "--to"; "bore.pub"]%string parseBoreOutput)
      as [[_ ->]|[_ [[e2 ->]|[[u2 [_ ->]]|[[e2 ->]| ->]]]]];
     try (cbn; eexists; reflexivity);
     (destruct (connectWith_cases w "ngrok" "ngrok"
                  ["http"; pretty localPort; "--log"; "stdout"]%string parseNgrokOutput)
       as [[_ ->]|[_ [[e3 ->]|[[u3 [_ ->]]|[[e3 ->]| ->]]]]];
      cbn; first [reflexivity | eexists; reflexivity])).
Qed.

Lemma available_iff (w : World) (provider : TunnelProvider) :
  In provider (CheckAvailableProviders w) <->
  (provider = ProviderNgrok /\ LookPath w "ngrok" = true) \/
  (provider = ProviderBore /\ LookPath w "bore" = true) \/
  (provider = ProviderLocal /\ LookPath w "ssh" = true).
Proof.
  unfold CheckAvailableProviders. rewrite !in_app_iff.
  destruct (LookPath w "ngrok"), (LookPath w "bore"), (LookPath w "ssh"); simpl;
    intuition congruence.
Qed.

Lemma connectWith_url (w : World) (binary name : string) (args : list string)
    (parse : list Tick -> Result) (u : string) :
  fst (connectWith w binary name args parse) = Url u ->
  LookPath w binary = true /\ parse (stdout w binary) = Url u.
Proof.
  destruct (connectWith_cases w binary name args parse)
    as [[_ ->]|[Hp [[e ->]|[[u' [Hu ->]]|[[e ->]| ->]]]]]; try discriminate.
  now intros [= <-].
Qed.

Lemma url_of_tunnel_url (p : Pattern) (u : string) :
  incl (domains p) [".lhr.life"; ".localhost.run"; ".bore.pub"; ".ngrok.io"]%string ->
  url_of p u -> tunnel_url u.
Proof.
  intros Hincl (label & d & -> & Hne & Hall & Hd).
  exists label, d. repeat split; try assumption. now apply Hincl.
Qed.

(** X14: Connect can only succeed through a provider that
    CheckAvailableProviders reports: when that list is empty Connect fails
    with "all tunnel providers failed" without starting any process, and a
    URL that Connect returns was produced by a listed provider and is a
    well-formed https URL on a provider domain. *)
Theorem connect_needs_available_provider (w : World) (localPort : Z) :
  (CheckAvailableProviders w = [] ->
   Connect w localPort = (Failure "all tunnel providers failed", [])) /\
  (forall u, fst (Connect w localPort) = Url u ->
     tunnel_url u /\
     exists provider,
       In provider (CheckAvailableProviders w) /\
       fst (connectWithProvider w provider localPort) = Url u).
Proof.
  split.
  - intros Hnone.
    assert (Hn : LookPath w "ngrok" = false /\ LookPath w "bore" = false /\
                 LookPath w "ssh" = false).
    { unfold CheckAvailableProviders in Hnone.
      destruct (LookPath w "ngrok"), (LookPath w "bore"), (LookPath w "ssh");
        try discriminate; auto. }
    destruct Hn as (Hn & Hb & Hs).
    unfold Connect. cbn [connect_from].
    destruct (connectWithProvider_known w localPort) as (-> & -> & ->).
    unfold connectLocalhost, connectBore, connectNgrok, connectWith.
    now rewrite Hn, Hb, Hs.
  - intros u. rewrite connect_order_eq.
    destruct (fst (connectLocalhost w localPort)) as [u1|e1|] eqn:H1; try discriminate.
    { intros [= ->]. destruct (connectWith_url _ _ _ _ _ _ H1) as [Hp Hu]. split.
      - destruct (parseLocalhostOutput_url _ _ Hu) as [(p & Hin & Hurl) _].
        apply (url_of_tunnel_url p); [|exact Hurl].
        simpl in Hin. destruct Hin as [<-|[<-|[<-|[<-|[<-|[]]]]]];
          intros d Hd; simpl in *; tauto.
      - exists ProviderLocal. split; [apply available_iff; tauto | exact H1]. }
    destruct (fst (connectBore w localPort)) as [u2|e2|] eqn:H2; try discriminate.
    { intros [= ->]. destruct (connectWith_url _ _ _ _ _ _ H2) as [Hp Hu]. split.
      - destruct (parseOutput_url _ _ _ _ Hu) as [Hurl _].
        apply (url_of_tunnel_url boreRegex); [|exact Hurl].
        intros d Hd; simpl in *; tauto.
      - exists ProviderBore. split; [apply available_iff; tauto | exact H2]. }
    destruct (fst (connectNgrok w localPort)) as [u3|e3|] eqn:H3; try discriminate.
    intros [= ->]. destruct (connectWith_url _ _ _ _ _ _ H3) as [Hp Hu]. split.
    + destruct (parseOutput_url _ _ _ _ Hu) as [Hurl _].
      apply (url_of_tunnel_url ngrokRegex); [|exact Hurl].
      intros d Hd; simpl in *; tauto.
    + exists ProviderNgrok. split; [apply available_iff; tauto | exact H3].
Qed.

Lemma connect_needs_available_provider_witness :
  CheckAvailableProviders ssh_times_out = [ProviderBore; ProviderLocal] /\
  tunnel_url "https://x9.bore.pub".
Proof.
  split; [reflexivity|].
  apply (connect_needs_available_provider ssh_times_out 3284). reflexivity.
Defined.

Lemma parseOutput_skips_end (name : string) (p : Pattern) (ts rest : list Tick) :
  parseOutput name p (ts ++ EndOfOutput :: rest) = parseOutput name p (ts ++ rest).
Proof.
  induction ts as [|t ts IH]; [reflexivity|].
  destruct t; cbn [app parseOutput]; try reflexivity; [|exact IH].
  destruct (negb _); [reflexivity | exact IH].
Qed.

Lemma parseLocalhostOutput_skips_end (ts rest : list Tick) :
  parseLocalhostOutput (ts ++ EndOfOutput :: rest) = parseLocalhostOutput (ts ++ rest).
Proof.
  induction ts as [|t ts IH]; [reflexivity|].
  destruct t; cbn [app parseLocalhostOutput]; try reflexivity; [|exact IH].
  destruct (try_regexes _ _); [reflexivity | exact IH].
Qed.

(** X15: the end of a provider's output does not end the parse loop: a
    turn that finds the output ended changes nothing, so after the output
    has ended without a URL the three parse functions return only when the
    timer fires or the context is cancelled. *)
Theorem end_of_output_keeps_polling (before_it after_it : list Tick) (n : nat) :
  parseNgrokOutput (before_it ++ EndOfOutput :: after_it)
  = parseNgrokOutput (before_it ++ after_it) /\
  parseBoreOutput (before_it ++ EndOfOutput :: after_it)
  = parseBoreOutput (before_it ++ after_it) /\
  parseLocalhostOutput (before_it ++ EndOfOutput :: after_it)
  = parseLocalhostOutput (before_it ++ after_it) /\
  parseNgrokOutput (repeat EndOfOutput n) = Pending /\
  parseBoreOutput (repeat EndOfOutput n) = Pending /\
  parseLocalhostOutput (repeat EndOfOutput n) = Pending.
Proof.
  split; [apply parseOutput_skips_end|].
  split; [apply parseOutput_skips_end|].
  split; [apply parseLocalhostOutput_skips_end|].
  repeat split; induction n as [|k IH]; try reflexivity; exact IH.
Qed.

Example ngrok_line :
  parseNgrokOutput
    [Line "t=2024 lvl=info msg=starting"; EndOfOutput;
     Line "t=2024 lvl=info msg=tunnel url=https://ab-12.ngrok.io addr=x"]
  = Url "https://ab-12.ngrok.io".
Proof. reflexivity. Qed.

Example localhost_line :
  parseLocalhostOutput
    [Line "welcome"; Line "abc.lhr.life tunneled with tls termination, https://abc.lhr.life"]
  = Url "https://abc.lhr.life".
Proof. reflexivity. Qed.

End Tunnel.

(** * cmd/quickstart/quickstart.go: what shutdown and the exits leave behind *)
Module QuickstartShutdown.

Import Quickstart.

(** The server has been stopped or its [Start] has returned. *)
Definition stopped (v : Srv) : bool :=
  match v with Returning | Stopped => true | _ => false end.

(** After [server.Stop] the server does not serve again. *)
Definition stop_inv (s : State) : bool :=
  match pc s with
  | AtCancel | AtDeferredClose | AtDeferredCancel | Returned => stopped (srv s)
  | _ => true
  end.

(** Start-up succeeds, then the registration with the coordinator fails. *)
Definition registration_fails : list Event :=
  [Main true; Main true; Main true; Main true; ServerListens;
   Main true; Main true; Main true; Main false].

Lemma stop_inv_step (e : Event) (s s' : State) :
  inv s = true -> stop_inv s = true -> step e s = Some s' -> stop_inv s' = true.
Proof.
  destruct s as [p v t c l r]. unfold step, inv, stop_inv. simpl.
  destruct p; simpl; try discriminate;
    destruct v; simpl; try discriminate;
    destruct l; simpl; try discriminate;
    destruct t; simpl; try discriminate;
    destruct e as [[|]| | | |]; simpl; try discriminate;
    destruct c; simpl; try discriminate;
    intros _ _ [= <-]; reflexivity.
Qed.

Lemma stop_inv_run (es : list Event) (s s' : State) :
  inv s = true -> stop_inv s = true -> run es s = Some s' -> stop_inv s' = true.
Proof.
  revert s. induction es as [|e es IH]; intros s Hi Hs; simpl.
  - now intros [= <-].
  - destruct (step e s) as [s1|] eqn:E; [|discriminate].
    apply IH; [exact (inv_step e s s1 Hi E) | exact (stop_inv_step e s s1 Hi Hs E)].
Qed.

(** X16: the PTY is closed only on the return path of the command, after
    [server.Stop] and [cancel()]: whenever the PTY is closed the server no
    longer serves and the context is cancelled, and a command that has
    returned has closed the PTY. An execution that ends in [os.Exit(1)] (no
    tunnel provider, no tunnel, registration refused) never closes the PTY:
    the deferred [claudeProcess.Close] does not run. *)
Theorem shutdown_order (s : State) :
  reachable s ->
  (pty s = PtyClosed ->
   serving s = false /\ stopped (srv s) = true /\ ctx_cancelled s = true) /\
  (pc s = Returned -> pty s = PtyClosed) /\
  (pc s = Exited -> pty s <> PtyClosed).
Proof.
  intros [es Hrun].
  pose proof (inv_run es initial s eq_refl Hrun) as Hi.
  pose proof (stop_inv_run es initial s eq_refl eq_refl Hrun) as Hs.
  destruct s as [p v t c l r]. unfold inv, stop_inv, serving, alive in *. simpl in *.
  destruct p, t; simpl in *; try discriminate;
    destruct l, r, c, v; simpl in *; try discriminate;
    repeat split; intros; congruence.
Qed.

Lemma shutdown_order_witness :
  run registration_fails initial =
  Some {| pc := Exited; srv := Serving; pty := PtyOpen;
          ctx_cancelled := false; loop_started := false; registered := false |} /\
  PtyOpen <> PtyClosed.
Proof.
  split; [reflexivity|].
  apply (shutdown_order
           {| pc := Exited; srv := Serving; pty := PtyOpen;
              ctx_cancelled := false; loop_started := false; registered := false |});
    [exists registration_fails|]; reflexivity.
Defined.

End QuickstartShutdown.

(** * lib/httpapi: further properties of the middleware *)
Module MiddlewareLaws.

Import HttpApi.

(** The request is a POST to /message, the only one whose body the
    middleware reads. *)
Definition is_message_post (r : Request) : bool :=
  (Path r =? "/message") && (Method r =? "POST").

(** The three refusals of the middleware. *)
Definition refuse_missing (w : ResponseWriter) : ResponseWriter :=
  http_Error (Header_Set w "WWW-Authenticate" "Bearer") "Authorization required" 401.

Definition refuse_format (w : ResponseWriter) : ResponseWriter :=
  http_Error w "Invalid authorization format" 401.

Definition refuse_token (w : ResponseWriter) : ResponseWriter :=
  http_Error w "Invalid token" 401.

(** GET /messages with the token "secret" and a body whose read fails. *)
Definition broken_get : Request :=
  {| Method := "GET"; Path := "/messages";
     Headers := <["Authorization" := "Bearer secret"]> ∅;
     Body := {| pending := "x"; closing := ReadError |} |}.

(** GET /messages with a token in lower-case scheme. *)
Definition lowercase_scheme : Request :=
  {| Method := "GET"; Path := "/messages";
     Headers := <["Authorization" := "bearer secret"]> ∅;
     Body := NewBuffer "" |}.

Section Laws.

Variable json_Unmarshal : string -> option RawProbe.

Lemma probed_other (r : Request) :
  is_message_post r = false -> probed json_Unmarshal r = r.
Proof. unfold probed, is_message_post. now intros ->. Qed.

Lemma exempt_other (r : Request) (b : ReadCloser) :
  is_message_post r = false ->
  exempt json_Unmarshal (with_Body r b) = exempt json_Unmarshal r.
Proof.
  unfold exempt, raw_post, is_message_post. cbn [Path Method with_Body].
  now intros ->.
Qed.

(** X17: the middleware reads the request body only for a POST to
    /message: for any other request its decision does not depend on the
    body, and a request it forwards is handed over exactly as it came, with
    the body unread, even if reading it would fail. *)
Theorem body_read_only_for_message_post (token : string) (w : ResponseWriter)
    (r : Request) (b : ReadCloser) :
  is_message_post r = false ->
  (forall w' r', AuthMiddleware json_Unmarshal token w r = ServeNext w' r' ->
     w' = w /\ r' = r) /\
  forwarded (AuthMiddleware json_Unmarshal token w (with_Body r b))
  = forwarded (AuthMiddleware json_Unmarshal token w r) /\
  serve (fun w _ => w) (AuthMiddleware json_Unmarshal token w (with_Body r b))
  = serve (fun w _ => w) (AuthMiddleware json_Unmarshal token w r).
Proof.
  intros Hother. split; [|].
  - intros w' r' H. apply AuthMiddleware_passes_probed in H as [-> ->].
    split; [reflexivity | now apply probed_other].
  - assert (Hb : is_message_post (with_Body r b) = false) by exact Hother.
    rewrite !AuthMiddleware_cases, (exempt_other r b Hother),
      (probed_other _ Hb), (probed_other _ Hother).
    destruct (exempt json_Unmarshal r); [now split|].
    unfold token_gate. cbn [Headers with_Body]. cbv zeta.
    repeat match goal with |- context [if ?c then _ else _] => destruct c end;
      now split.
Qed.

(** X18: a request that is not exempt is refused in exactly three ways,
    all with status 401 and without calling the inner handler: an empty or
    absent Authorization header gets "Authorization required" together with
    the challenge header WWW-Authenticate: Bearer; a header that does not
    begin with "Bearer " (the comparison is case-sensitive) gets "Invalid
    authorization format"; a header that begins with it and carries another
    token gets "Invalid token". The challenge header is set in the first
    case only. *)
Theorem refusals (token : string) (w : ResponseWriter) (r : Request) :
  exempt json_Unmarshal r = false ->
  let auth := Get (Headers r) "Authorization" in
  (auth = "" ->
   AuthMiddleware json_Unmarshal token w r = Return (refuse_missing w)) /\
  (auth <> "" -> HasPrefix auth "Bearer " = false ->
   AuthMiddleware json_Unmarshal token w r = Return (refuse_format w)) /\
  (HasPrefix auth "Bearer " = true -> auth <> bearer token ->
   AuthMiddleware json_Unmarshal token w r = Return (refuse_token w)) /\
  (out_headers w !! "WWW-Authenticate" = None ->
   forall w', AuthMiddleware json_Unmarshal token w r = Return w' ->
     (out_headers w' !! "WWW-Authenticate" = Some "Bearer" <-> auth = "")).
Proof.
  intros He. cbv zeta. rewrite AuthMiddleware_cases, He.
  destruct (probed_frame json_Unmarshal r) as (_ & _ & Hh).
  unfold token_gate. rewrite Hh. cbv zeta.
  generalize (Get (Headers r) "Authorization") as auth. intros auth.
  split; [|split; [|split]].
  - intros ->. reflexivity.
  - intros Hne Hp. destruct (String.eqb_spec auth ""); [contradiction|].
    now rewrite Hp.
  - intros Hp Hb. destruct (String.eqb_spec auth "") as [->|_]; [discriminate|].
    rewrite Hp. cbn [negb].
    destruct (String.eqb_spec (slice_from (String.length "Bearer ") auth) token)
      as [Ht|_]; [|reflexivity].
    elim Hb. unfold bearer. rewrite <- Ht. now apply HasPrefix_split.
  - intros Hw w'. destruct (String.eqb_spec auth "") as [->|Hne].
    + intros [= <-]. split; [reflexivity|]. intros _. cbn.
      rewrite !lookup_insert_ne by discriminate. apply lookup_insert_eq.
    + destruct (HasPrefix auth "Bearer "); cbn [negb];
        [destruct (slice_from (String.length "Bearer ") auth =? token); cbn [negb]|];
        try discriminate; intros [= <-]; (split; [|contradiction]); cbn;
        rewrite !lookup_insert_ne, Hw by discriminate; discriminate.
Qed.

Lemma probed_again (r : Request) :
  probed json_Unmarshal (probed json_Unmarshal r) = probed json_Unmarshal r /\
  exempt json_Unmarshal (probed json_Unmarshal r) = exempt json_Unmarshal r.
Proof.
  destruct (is_message_post r) eqn:Hm.
  - destruct (closing (Body r)) eqn:Hc.
    + now rewrite !(probed_whole_body json_Unmarshal r Hc).
    + assert (Hp : probed json_Unmarshal r
                   = with_Body r {| pending := ""; closing := ReadError |}).
      { unfold probed. fold (is_message_post r). rewrite Hm.
        now rewrite (isRawMessage_drains json_Unmarshal r Hc). }
      rewrite Hp. split.
      * unfold probed at 1. cbn [Path Method with_Body]. fold (is_message_post r).
        rewrite Hm. now rewrite isRawMessage_drains.
      * unfold exempt, raw_post, json_type_raw. cbn [Path Method Body with_Body closing].
        rewrite Hc. reflexivity.
  - now rewrite !(probed_other r Hm).
Qed.

(** X19: the decision of the middleware is stable: a request that it
    forwards is forwarded again, unchanged, when the middleware is applied
    to it a second time (so stacking the middleware twice forwards exactly
    the requests that one application forwards). *)
Theorem forwarding_is_idempotent (token : string) (w w' : ResponseWriter)
    (r r' : Request) :
  AuthMiddleware json_Unmarshal token w r = ServeNext w' r' ->
  AuthMiddleware json_Unmarshal token w' r' = ServeNext w' r'.
Proof.
  intros H. pose proof H as H0.
  apply AuthMiddleware_passes_probed in H0 as [-> ->].
  destruct (probed_again r) as [Hp He].
  rewrite AuthMiddleware_cases in H. rewrite AuthMiddleware_cases, He, Hp.
  destruct (exempt json_Unmarshal r); [reflexivity | exact H].
Qed.

End Laws.

Lemma body_read_only_for_message_post_witness :
  AuthMiddleware two_body_Unmarshal "secret" fresh_writer broken_get
  = ServeNext fresh_writer broken_get.
Proof.
  destruct (body_read_only_for_message_post two_body_Unmarshal "secret" fresh_writer
              broken_get (NewBuffer "") eq_refl) as [Hsame _].
  destruct (AuthMiddleware two_body_Unmarshal "secret" fresh_writer broken_get)
    as [w' r'|w'] eqn:E; [|vm_compute in E; discriminate].
  now destruct (Hsame w' r' eq_refl) as [-> ->].
Defined.

Lemma refusals_witness :
  AuthMiddleware two_body_Unmarshal "secret" fresh_writer lowercase_scheme
  = Return (refuse_format fresh_writer).
Proof.
  apply (refusals two_body_Unmarshal "secret" fresh_writer lowercase_scheme eq_refl);
    [discriminate | reflexivity].
Defined.

Lemma forwarding_is_idempotent_witness :
  AuthMiddleware two_body_Unmarshal "secret" fresh_writer
    (with_Body broken_post {| pending := ""; closing := ReadError |})
  = ServeNext fresh_writer
      (with_Body broken_post {| pending := ""; closing := ReadError |}).
Proof.
  apply (forwarding_is_idempotent two_body_Unmarshal "secret" fresh_writer fresh_writer
           broken_post).
  reflexivity.
Defined.

End MiddlewareLaws.

(** * lib/coordinator/client.go: Register and Lookup *)
Module CoordinatorClient.

Import Coordinator.

Record RegisterRequest := {
  req_Passcode : string;     (* `json:"passcode"` *)
  req_TunnelURL : string;    (* `json:"tunnel_url"` *)
  req_Token : string         (* `json:"token"` *)
}.

Record RegisterResponse := {
  Success : bool;
  resp_Passcode : string;
  ExpiresIn : Z;
  reg_Error : string
}.

Record LookupResponse := {
  TunnelURL : string;
  Token : string;
  look_Error : string
}.

(** An [*http.Request] as the client builds it. *)
Record HttpRequest := {
  h_method : string;
  h_url : string;
  h_headers : gmap string string;
  h_body : string
}.

(** An [*http.Response]: the status code and the body stream. *)
Record HttpResponse := {
  StatusCode : Z;
  Body : HttpApi.ReadCloser
}.

(** The errors of [Register] and [Lookup], by the format string that wraps
    the cause. *)
Inductive Error :=
| MarshalFailed (cause : string)        (* "failed to marshal request: %w" *)
| CreateFailed (cause : string)         (* "failed to create request: %w" *)
| RequestFailed (cause : string)        (* "failed to make request: %w" *)
| ReadFailed                            (* "failed to read response: %w" *)
| UnmarshalFailed (cause : string)      (* "failed to unmarshal response: %w" *)
| RegistrationFailed (message : string) (* "registration failed: %s" *)
| LookupFailed (message : string).      (* "lookup failed: %s" *)

Definition http_StatusOK : Z := 200.

(** The response with another status code. *)
Definition with_status (code : Z) (r : HttpResponse) : HttpResponse :=
  {| StatusCode := code; Body := Body r |}.

Section Transport.

(** [json.Marshal] of a request. *)
Variable Marshal : RegisterRequest -> string + string.

(** The error of [http.NewRequest] for a method and URL, if any. *)
Variable NewRequest_error : string -> string -> option string.

(** [client.Do] and [client.Get]: the response, or the error. *)
Variable Do : HttpRequest -> HttpResponse + string.

(** [json.Unmarshal] into the two response structs. *)
Variable Unmarshal_Register : string -> RegisterResponse + string.
Variable Unmarshal_Lookup : string -> LookupResponse + string.

(** [Register]: [None] is the nil error. *)
Definition Register (env : Environ) (passcode tunnelURL token : string) : option Error :=
  let reqBody := {| req_Passcode := passcode; req_TunnelURL := tunnelURL;
                    req_Token := token |} in
  match Marshal reqBody with
  | inr err => Some (MarshalFailed err)
  | inl jsonData =>
      let url := t_url (Register_target env) in
      match NewRequest_error "POST" url with
      | Some err => Some (CreateFailed err)
      | None =>
          let req := {| h_method := "POST"; h_url := url;
                        h_headers := <["Content-Type" := "application/json"]> ∅;
                        h_body := jsonData |} in
          match Do req with
          | inr err => Some (RequestFailed err)
          | inl resp =>
              let '(body, err, _) := HttpApi.ReadAll (Body resp) in
              if err then Some ReadFailed
              else
                match Unmarshal_Register body with
                | inr err => Some (UnmarshalFailed err)
                | inl registerResp =>
                    if negb (Success registerResp)
                    then Some (RegistrationFailed (reg_Error registerResp))
                    else None
                end
          end
      end
  end.

(** [Lookup]: the response or the error. [client.Get] builds its request
    with [http.NewRequest] and reports its error as the error of the call. *)
Definition Lookup (env : Environ) (passcode : string) : LookupResponse + Error :=
  let url := t_url (Lookup_target env passcode) in
  let sent :=
    match NewRequest_error "GET" url with
    | Some err => inr err
    | None => Do {| h_method := "GET"; h_url := url; h_headers := ∅; h_body := "" |}
    end in
  match sent with
  | inr err => inr (RequestFailed err)
  | inl resp =>
      let '(body, err, _) := HttpApi.ReadAll (Body resp) in
      if err then inr ReadFailed
      else
        match Unmarshal_Lookup body with
        | inr err => inr (UnmarshalFailed err)
        | inl lookupResp =>
            if negb (StatusCode resp =? http_StatusOK)%Z
            then inr (LookupFailed (look_Error lookupResp))
            else inl lookupResp
        end
  end.

(** The request that [Register] sends. *)
Definition register_http (env : Environ) (jsonData : string) : HttpRequest :=
  {| h_method := "POST"; h_url := t_url (Register_target env);
     h_headers := <["Content-Type" := "application/json"]> ∅;
     h_body := jsonData |}.

(** The request that [Lookup] sends. *)
Definition lookup_http (env : Environ) (passcode : string) : HttpRequest :=
  {| h_method := "GET"; h_url := t_url (Lookup_target env passcode);
     h_headers := ∅; h_body := "" |}.

(** The transport that answers as [Do] does, with the status code
    replaced. *)
Definition Do_with_status (code : Z) (req : HttpRequest) : HttpResponse + string :=
  match Do req with
  | inl resp => inl (with_status code resp)
  | inr err => inr err
  end.

End Transport.

(** A coordinator that answers every request with a 502 page that is not
    JSON; the decoders reject the page. *)
Definition gateway_error (req : HttpRequest) : HttpResponse + string :=
  inl {| StatusCode := 502; Body := HttpApi.NewBuffer "<html>Bad Gateway</html>" |}.

Definition rejecting_Lookup (body : string) : LookupResponse + string :=
  inr "invalid character '<' looking for beginning of value"%string.

(** A coordinator that answers 500 with a body that decodes to a
    successful registration. *)
Definition confused_server (req : HttpRequest) : HttpResponse + string :=
  inl {| StatusCode := 500; Body := HttpApi.NewBuffer "{}" |}.

Definition accepting_Register (body : string) : RegisterResponse + string :=
  inl {| Success := true; resp_Passcode := ""; ExpiresIn := 0; reg_Error := "" |}.

Definition plain_Marshal (r : RegisterRequest) : string + string :=
  inl (req_Passcode r +:+ "," +:+ req_TunnelURL r +:+ "," +:+ req_Token r)%string.

Section Results.

Variable Marshal : RegisterRequest -> string + string.
Variable NewRequest_error : string -> string -> option string.
Variable Do : HttpRequest -> HttpResponse + string.
Variable Unmarshal_Register : string -> RegisterResponse + string.
Variable Unmarshal_Lookup : string -> LookupResponse + string.

(** X20: Register never looks at the HTTP status code: with the status
    of the answer replaced by any other its result is the same. It returns
    nil exactly when the request is sent, the body of the answer is read to
    its end and decodes, and the decoded [success] field is true. *)
Theorem register_ignores_status (env : Environ) (passcode tunnelURL token : string)
    (code : Z) :
  Register Marshal NewRequest_error (Do_with_status Do code) Unmarshal_Register
    env passcode tunnelURL token
  = Register Marshal NewRequest_error Do Unmarshal_Register env passcode tunnelURL token /\
  (Register Marshal NewRequest_error Do Unmarshal_Register env passcode tunnelURL token
   = None <->
   exists jsonData resp decoded,
     Marshal {| req_Passcode := passcode; req_TunnelURL := tunnelURL;
                req_Token := token |} = inl jsonData /\
     NewRequest_error "POST" (t_url (Register_target env)) = None /\
     Do (register_http env jsonData) = inl resp /\
     HttpApi.closing (Body resp) = HttpApi.EOF /\
     Unmarshal_Register (HttpApi.pending (Body resp)) = inl decoded /\
     Success decoded = true).
Proof.
  unfold Register, Do_with_status, register_http, HttpApi.ReadAll. cbv zeta.
  destruct (Marshal _) as [jsonData|e].
  2:{ split; [reflexivity|]. split; [discriminate|].
      intros (? & ? & ? & [=] & _). }
  destruct (NewRequest_error "POST" _) as [e|].
  { split; [reflexivity|]. split; [discriminate|].
    intros (? & ? & ? & _ & [=] & _). }
  destruct (Do _) as [resp|e] eqn:HDo.
  2:{ split; [reflexivity|]. split; [discriminate|].
      intros (d & ? & ? & [= <-] & _ & H & _). rewrite HDo in H. discriminate. }
  cbn [Body with_status]. split; [reflexivity|].
  destruct (HttpApi.closing (Body resp)) eqn:Hc.
  - destruct (Unmarshal_Register (HttpApi.pending (Body resp))) as [decoded|e] eqn:Hu.
    + destruct (Success decoded) eqn:Hs; cbn [negb].
      * split; [|reflexivity]. intros _. now exists jsonData, resp, decoded.
      * split; [discriminate|].
        intros (d & r & x & [= <-] & _ & H & _ & Hx & Hsx).
        rewrite HDo in H. injection H as <-. rewrite Hu in Hx. injection Hx as <-.
        congruence.
    + split; [discriminate|].
      intros (d & r & x & [= <-] & _ & H & _ & Hx & _).
      rewrite HDo in H. injection H as <-. rewrite Hu in Hx. discriminate.
  - split; [discriminate|].
    intros (d & r & x & [= <-] & _ & H & Hc' & _).
    rewrite HDo in H. injection H as <-. congruence.
Qed.

(** X21: Lookup decodes the body before it looks at the status: a body
    that is read but does not decode gives the unmarshal error whatever the
    status code is; a body that decodes gives "lookup failed" with its
    [error] field when the status is not 200; and Lookup returns a response
    only for a status of 200, and then exactly the decoded body. *)
Theorem lookup_decodes_first (env : Environ) (passcode : string) (resp : HttpResponse) :
  NewRequest_error "GET" (t_url (Lookup_target env passcode)) = None ->
  Do (lookup_http env passcode) = inl resp ->
  HttpApi.closing (Body resp) = HttpApi.EOF ->
  (forall cause, Unmarshal_Lookup (HttpApi.pending (Body resp)) = inr cause ->
     Lookup NewRequest_error Do Unmarshal_Lookup env passcode
     = inr (UnmarshalFailed cause)) /\
  (forall decoded, Unmarshal_Lookup (HttpApi.pending (Body resp)) = inl decoded ->
     Lookup NewRequest_error Do Unmarshal_Lookup env passcode
     = if (StatusCode resp =? 200)%Z then inl decoded
       else inr (LookupFailed (look_Error decoded))).
Proof.
  intros Hnew HDo Heof. unfold Lookup, lookup_http in *. cbv zeta.
  rewrite Hnew, HDo. unfold HttpApi.ReadAll. rewrite Heof.
  split.
  - intros cause ->. reflexivity.
  - intros decoded ->. unfold http_StatusOK. now destruct (StatusCode resp =? 200)%Z.
Qed.

End Results.

Lemma register_ignores_status_witness :
  Register plain_Marshal (fun _ _ => None) confused_server accepting_Register
    ∅ "ABC234" "https://abc.lhr.life" "tok" = None.
Proof.
  apply (register_ignores_status plain_Marshal (fun _ _ => None) confused_server
           accepting_Register ∅ "ABC234" "https://abc.lhr.life" "tok" 200).
  eexists _, _, _. repeat split.
Defined.

Lemma lookup_decodes_first_witness :
  Lookup (fun _ _ => None) gateway_error rejecting_Lookup ∅ "ABC234"
  = inr (UnmarshalFailed "invalid character '<' looking for beginning of value").
Proof.
  destruct (lookup_decodes_first (fun _ _ => None) gateway_error rejecting_Lookup
              ∅ "ABC234" _ eq_refl eq_refl eq_refl) as [H _].
  exact (H _ eq_refl).
Defined.

End CoordinatorClient.
